(** * LinkedIn job scraper: orchestrator and storage engine

    A shallow embedding of [utils/storage.js] (class [StorageManager]) and
    [background/background.js] (class [LinkedInScrapingManager]), and the
    properties of admission, queue draining, the stale-job watchdog,
    retention, quota eviction, the index cap, deduplication and export.

    Conventions of the embedding.
    - JavaScript numbers that the code uses as counts, byte sizes and
      millisecond timestamps are integers ([Z]); a number computed from an
      absent operand ([NaN]) is [None].  Every handler receives the value
      of [Date.now()] as an argument and reads the clock once.
    - [chrome.storage.local] is a record with one field per well-known key
      ([scrapingIndex], [scrapingHistory], [storageStats]) and a finite map
      for the keys [scraping_result_<id>], indexed by [<id>].  The prefix
      is fixed, so the map from ids to keys is injective.  A key that is
      absent and read with [|| []] is the empty list.  Storage calls
      succeed.
    - A [Map] is an association list in insertion order; an array is a list.
    - A rejected promise or thrown [Error] is a value of [Thrown]; a [catch]
      that only logs returns normally.  Console output is not part of the
      state.
    - A handler runs to its end before the next event is handled: the
      promise of [chrome.tabs.sendMessage] settles, delivered or rejected,
      inside the handler that awaits it. *)

From Stdlib Require Import ZArith QArith Qround Lia.
From stdpp Require Import base tactics option list gmap strings pretty sorting.

Local Open Scope Z_scope.
#[local] Set Warnings "-clear-no-such-hyp,-level-tolerance".

(** ** JavaScript values carried by a result record *)

Inductive JsVal :=
| JUndefined
| JNull
| JBool (b : bool)
| JNum (n : Z)
| JStr (s : string).

#[global] Instance JsVal_eq_dec : EqDecision JsVal.
Proof. solve_decision. Defined.

(** [String(v)], as a template literal applies it; a missing property reads
    as [undefined]. *)
Definition toString (v : JsVal) : string :=
  match v with
  | JUndefined => "undefined"
  | JNull => "null"
  | JBool true => "true"
  | JBool false => "false"
  | JNum n => pretty n
  | JStr s => s
  end.

Definition truthy (v : JsVal) : bool :=
  match v with
  | JUndefined | JNull => false
  | JBool b => b
  | JNum n => negb (n =? 0)
  | JStr s => negb (String.eqb s "")
  end.

(** A result record (one scraped job) is a plain object: a finite map from
    property names to values. *)
Abbreviation Job := (gmap string JsVal).

Definition prop (o : Job) (k : string) : JsVal := default JUndefined (o !! k).

(** ** Generic array helpers *)

Section arrays.
Context {A : Type}.

(** [Array.prototype.sort(cmp)] is stable (ES2019): [x] goes before the
    first [y] that does not have to precede it. *)
Fixpoint sort_insert (cmp : A -> A -> Z) (x : A) (l : list A) : list A :=
  match l with
  | [] => [x]
  | y :: l' => if cmp x y <=? 0 then x :: y :: l' else y :: sort_insert cmp x l'
  end.

Definition js_sort (cmp : A -> A -> Z) (l : list A) : list A :=
  foldr (sort_insert cmp) [] l.

(** [findIndex] *)
Fixpoint findIndex (p : A -> bool) (l : list A) : option nat :=
  match l with
  | [] => None
  | x :: l' => if p x then Some 0%nat else S <$> findIndex p l'
  end.
End arrays.

(** ** Persisted data *)

Record SearchParams := {
  jobTitle : string;
  location : string;
  numPages : Z
}.

Record ErrorEntry := {
  err_timestamp : Z;
  err_message : string
}.

(** What is written under [scraping_result_<id>].  A number that the code
    computes from an absent operand ([NaN]) is [None]. *)
Record SessionData := {
  id : string;
  params : SearchParams;
  startTime : Z;
  endTime : option Z;
  status : string;
  jobs : option (list Job);
  errors : list ErrorEntry;
  sd_duration : option Z;
  sd_jobCount : option Z;
  migrated : bool
}.

(** An element of [scrapingIndex].  [background.js] writes entries without
    [endTime] and [dataSize]. *)
Record IndexEntry := {
  ie_id : string;
  timestamp : Z;
  ie_endTime : option Z;
  ie_params : SearchParams;
  jobCount : option Z;
  duration : option Z;
  ie_status : string;
  dataSize : option Z
}.

Record HistoryEntry := {
  he_id : string;
  he_params : SearchParams;
  he_startTime : Z;
  he_status : string;
  he_endTime : option Z;
  extractedCount : option Z
}.

#[global] Instance SearchParams_eq_dec : EqDecision SearchParams.
Proof. solve_decision. Defined.

#[global] Instance IndexEntry_eq_dec : EqDecision IndexEntry.
Proof. solve_decision. Defined.

#[global] Instance HistoryEntry_eq_dec : EqDecision HistoryEntry.
Proof. solve_decision. Defined.

Record StorageStats := {
  totalJobs : Z;
  totalSessions : Z;
  storageUsed : Z;
  lastCalculated : Z
}.

(** [chrome.storage.local] *)
Record LocalStore := {
  scrapingIndex : list IndexEntry;
  scrapingHistory : list HistoryEntry;
  results : gmap string SessionData;
  storageStats : option StorageStats
}.

Definition set_scrapingIndex (ix : list IndexEntry) (s : LocalStore) : LocalStore :=
  {| scrapingIndex := ix; scrapingHistory := scrapingHistory s;
     results := results s; storageStats := storageStats s |}.

Definition set_scrapingHistory (h : list HistoryEntry) (s : LocalStore) : LocalStore :=
  {| scrapingIndex := scrapingIndex s; scrapingHistory := h;
     results := results s; storageStats := storageStats s |}.

Definition set_results (r : gmap string SessionData) (s : LocalStore) : LocalStore :=
  {| scrapingIndex := scrapingIndex s; scrapingHistory := scrapingHistory s;
     results := r; storageStats := storageStats s |}.

Definition set_storageStats (t : StorageStats) (s : LocalStore) : LocalStore :=
  {| scrapingIndex := scrapingIndex s; scrapingHistory := scrapingHistory s;
     results := results s; storageStats := Some t |}.

(** [chrome.storage.local.remove(keys)] on result keys *)
Definition remove_results (ids : list string) (s : LocalStore) : LocalStore :=
  set_results (foldr delete (results s) ids) s.

Definition emptyStore : LocalStore :=
  {| scrapingIndex := []; scrapingHistory := []; results := ∅; storageStats := None |}.

(** A thrown error, with its message. *)
Inductive Outcome (A : Type) :=
| Returned (a : A)
| Thrown (message : string).
Arguments Returned {A} a.
Arguments Thrown {A} message.

(** * utils/storage.js *)

Module Storage.

Section StorageManager.
(** The platform functions the class calls: [Date] parsing (the ISO
    string when the value parses), [String.prototype.trim], the regular
    expression pass of [compressText], and the byte size of the JSON
    serialisation. *)
Variable parseDate : JsVal -> option string.
Variable trim : string -> string.
Variable collapseWhitespace : string -> string.
Variable getDataSize : SessionData -> Z.

Definition compressionThreshold : Z := 1024.

Definition standardizeDate (dateStr : JsVal) : JsVal :=
  match parseDate dateStr with
  | None => dateStr
  | Some iso => JStr iso
  end.

Definition isBlank (v : JsVal) : bool :=
  match v with
  | JNull | JUndefined => true
  | JStr s => String.eqb s ""
  | _ => false
  end.

Definition standardizeField (field : string) (cleaned : Job) : Job :=
  let v := prop cleaned field in
  if truthy v && negb (bool_decide (v = JStr "N/A"))
  then <[field := standardizeDate v]> cleaned
  else cleaned.

Definition trimField (cleaned : Job) (field : string) : Job :=
  match cleaned !! field with
  | Some (JStr s) => <[field := JStr (trim s)]> cleaned
  | _ => cleaned
  end.

Definition textFields : list string :=
  ["jobTitle"; "companyName"; "location"; "seniorityLevel";
   "employmentType"; "jobFunction"; "industries"].

Definition cleanJobData (job : Job) : Job :=
  let cleaned := (fun v => if isBlank v then JStr "N/A" else v) <$> job in
  let cleaned := standardizeField "listingDate" cleaned in
  let cleaned := standardizeField "datePosted" cleaned in
  foldl trimField cleaned textFields.

(** [`${job.jobId}_${job.jobUrl}`] *)
Definition jobKey (job : Job) : string :=
  toString (prop job "jobId") +:+ "_" +:+ toString (prop job "jobUrl").

Fixpoint deduplicateJobs_from (seen : gset string) (jobs : list Job) : list Job :=
  match jobs with
  | [] => []
  | job :: rest =>
      let key := jobKey job in
      if decide (key ∈ seen) then deduplicateJobs_from seen rest
      else job :: deduplicateJobs_from ({[key]} ∪ seen) rest
  end.

Definition deduplicateJobs (jobs : list Job) : list Job :=
  deduplicateJobs_from ∅ jobs.

Definition compressText (text : string) : string :=
  trim (collapseWhitespace text).

Definition compressJob (job : Job) : Job :=
  match job !! "jobDescription" with
  | Some (JStr d) =>
      if negb (String.eqb d "") && (compressionThreshold <? Z.of_nat (String.length d))
      then <["_compressed" := JBool true]> (<["jobDescription" := JStr (compressText d)]> job)
      else job
  | _ => job
  end.

Definition with_jobs (data : SessionData) (js : option (list Job)) : SessionData :=
  {| id := id data; params := params data; startTime := startTime data;
     endTime := endTime data; status := status data; jobs := js;
     errors := errors data; sd_duration := sd_duration data;
     sd_jobCount := sd_jobCount data; migrated := migrated data |}.

Definition optimizeDataForStorage (data : SessionData) : SessionData :=
  match jobs data with
  | None => data
  | Some js =>
      let js := cleanJobData <$> js in
      let js := deduplicateJobs js in
      with_jobs data (Some (compressJob <$> js))
  end.

(** *** Index, statistics and deletion *)

Definition calculateStorageStats (now : Z) (s : LocalStore) : LocalStore :=
  let index := scrapingIndex s in
  set_storageStats
    {| totalJobs := foldl (fun acc entry => acc + default 0 (jobCount entry)) 0 index;
       totalSessions := Z.of_nat (length index);
       storageUsed := foldl (fun acc entry => acc + default 0 (dataSize entry)) 0 index;
       lastCalculated := now |} s.

Definition updateStorageStats := calculateStorageStats.

Definition deleteScrapingSession (now : Z) (sessionId : string) (s : LocalStore) : LocalStore :=
  let s := remove_results [sessionId] s in
  let updatedIndex :=
    filter (fun entry => ie_id entry <> sessionId) (scrapingIndex s) in
  let s := set_scrapingIndex updatedIndex s in
  updateStorageStats now s.

Definition deleteMultipleSessions (now : Z) (sessionIds : list string) (s : LocalStore)
  : LocalStore :=
  let s := remove_results sessionIds s in
  let updatedIndex :=
    filter (fun entry => ie_id entry ∉ sessionIds) (scrapingIndex s) in
  let s := set_scrapingIndex updatedIndex s in
  updateStorageStats now s.

(** [const maxIndexEntries = 1000] in the source; the functions below take
    the cap as an argument so that it can be instantiated. *)
Definition maxIndexEntries : nat := 1000.

Definition indexEntryOf (sessionData : SessionData) : IndexEntry :=
  {| ie_id := id sessionData;
     timestamp := startTime sessionData;
     ie_endTime := endTime sessionData;
     ie_params := params sessionData;
     jobCount := Some (from_option (fun js => Z.of_nat (length js)) 0 (jobs sessionData));
     duration := (fun e => e - startTime sessionData) <$> endTime sessionData;
     ie_status := status sessionData;
     dataSize := Some (getDataSize sessionData) |}.

(** The replace-in-place or [unshift] step. *)
Definition upsertEntry (indexEntry : IndexEntry) (index : list IndexEntry)
  : list IndexEntry :=
  match findIndex (fun entry => bool_decide (ie_id entry = ie_id indexEntry)) index with
  | Some existingIndex => <[existingIndex := indexEntry]> index
  | None => indexEntry :: index
  end.

Definition updateScrapingIndex_cap (cap : nat) (now : Z) (sessionData : SessionData)
    (s : LocalStore) : LocalStore :=
  let index := upsertEntry (indexEntryOf sessionData) (scrapingIndex s) in
  if bool_decide (cap < length index)%nat then
    (* [index.splice(cap)] returns the tail and leaves the first [cap] *)
    let removedEntries := drop cap index in
    let index := take cap index in
    let s := foldl (fun s entry => deleteScrapingSession now (ie_id entry) s)
                   s removedEntries in
    set_scrapingIndex index s
  else set_scrapingIndex index s.

Definition updateScrapingIndex := updateScrapingIndex_cap maxIndexEntries.

(** *** Quota *)

Variable getBytesInUse : LocalStore -> Z.
Variable QUOTA_BYTES : Z.

Definition performStorageCleanup (now : Z) (s : LocalStore) : LocalStore :=
  let index := js_sort (fun a b => timestamp a - timestamp b) (scrapingIndex s) in
  (* [Math.floor(index.length * 0.25)]: a quarter is exact in binary *)
  let removeCount := (length index / 4)%nat in
  let sessionsToRemove := take removeCount index in
  if bool_decide (0 < length sessionsToRemove)%nat then
    deleteMultipleSessions now (ie_id <$> sessionsToRemove) s
  else s.

(** [(bytesInUse / quota) * 100], over the rationals.  The two operands
    are integers far below 2^53, so the double the source computes is on
    the same side of 80 as the exact quotient. *)
Definition usagePercent (s : LocalStore) : Q :=
  (inject_Z (getBytesInUse s) / inject_Z QUOTA_BYTES) * inject_Z 100.

Definition usageHigh (s : LocalStore) : bool :=
  negb (Qle_bool (usagePercent s) (inject_Z 80)).

Definition checkStorageQuota (now : Z) (s : LocalStore) : LocalStore :=
  if usageHigh s then performStorageCleanup now s else s.

(** *** The write path *)

Record SaveResult := {
  sr_sessionId : string;
  sr_dataSize : Z
}.

(** Steps after the quota check: the write, the index and the stats. *)
Definition writeSession_cap (cap : nat) (now : Z) (sessionData optimizedData : SessionData)
    (s : LocalStore) : LocalStore :=
  let s := set_results (<[id sessionData := optimizedData]> (results s)) s in
  let s := updateScrapingIndex_cap cap now sessionData s in
  updateStorageStats now s.

Definition saveScrapingSession_cap (cap : nat) (now : Z) (sessionData : SessionData)
    (s : LocalStore) : LocalStore * SaveResult :=
  let sessionId := id sessionData in
  let optimizedData := optimizeDataForStorage sessionData in
  let s := checkStorageQuota now s in
  let s := writeSession_cap cap now sessionData optimizedData s in
  (s, {| sr_sessionId := sessionId; sr_dataSize := getDataSize optimizedData |}).

Definition saveScrapingSession := saveScrapingSession_cap maxIndexEntries.

(** *** Reading and export *)

Definition decompressText (text : JsVal) : JsVal := text.

Definition decompressJob (job : Job) : Job :=
  if truthy (prop job "_compressed") && truthy (prop job "jobDescription")
  then delete "_compressed" (<["jobDescription" := decompressText (prop job "jobDescription")]> job)
  else job.

Definition getScrapingSession (sessionId : string) (s : LocalStore) : option SessionData :=
  match results s !! sessionId with
  | Some sessionData =>
      Some (with_jobs sessionData (option_map (map decompressJob) (jobs sessionData)))
  | None => None
  end.

(** The six optional clauses of [applyFilters] each keep the entries that
    pass a test; a filter object is the conjunction of its tests. *)
Definition applyFilters (filters : IndexEntry -> bool) (index : list IndexEntry)
  : list IndexEntry :=
  List.filter filters index.

Definition getScrapingSessions (limit offset : nat) (filters : IndexEntry -> bool)
    (s : LocalStore) : list SessionData :=
  let index := applyFilters filters (scrapingIndex s) in
  let index := js_sort (fun a b => timestamp b - timestamp a) index in
  let paginatedIndex := take limit (drop offset index) in
  omap (fun indexEntry => getScrapingSession (ie_id indexEntry) s) paginatedIndex.

Variable stringifySessions : list SessionData -> string.
Variable stringifyJobs : list Job -> string.
Variable convertSessionsToCSV : list SessionData -> string.
Variable convertJobsToCSV : list Job -> string.

Record ExportFile := {
  ef_data : string;
  ef_filename : string;
  ef_mimeType : string
}.

Definition exportData (now : Z) (format : JsVal) (filters : IndexEntry -> bool)
    (includeDetails : bool) (s : LocalStore) : Outcome ExportFile :=
  let format := match format with JUndefined => JStr "json" | _ => format end in
  let sessions := getScrapingSessions 1000 0 filters s in
  let jobsOnly := concat (omap jobs sessions) in
  match format with
  | JStr kind =>
      if String.eqb kind "json" then
        Returned {| ef_data := if includeDetails then stringifySessions sessions
                               else stringifyJobs jobsOnly;
                    ef_filename := "linkedin_jobs_" +:+ pretty now +:+ ".json";
                    ef_mimeType := "application/json" |}
      else if String.eqb kind "csv" then
        Returned {| ef_data := if includeDetails then convertSessionsToCSV sessions
                               else convertJobsToCSV jobsOnly;
                    ef_filename := "linkedin_jobs_" +:+ pretty now +:+ ".csv";
                    ef_mimeType := "text/csv" |}
      else if String.eqb kind "xlsx" then Thrown "XLSX export not implemented yet"
      else Thrown ("Unsupported format: " +:+ toString format)
  | _ => Thrown ("Unsupported format: " +:+ toString format)
  end.

End StorageManager.
End Storage.

(** * background/background.js *)

Module Background.

(** A live job, the value type of [activeScrapeJobs].  [endTime] and
    [lastUpdate] are absent ([undefined]) until they are first assigned. *)
Record ScrapeJob := {
  job_id : string;
  job_tabId : Z;
  job_params : SearchParams;
  job_startTime : Z;
  job_status : string;
  progress : Z;
  extractedJobs : list Job;
  job_errors : list ErrorEntry;
  job_endTime : option Z;
  lastUpdate : option Z
}.

Record QueuedJob := {
  q_tabId : Z;
  q_scrapingParams : SearchParams;
  q_timestamp : Z
}.

(** The payload of a [PROGRESS_UPDATE] message. *)
Record ProgressData := {
  pd_type : string;
  pd_progress : option Z;
  pd_message : string;
  pd_data : option (list Job)
}.

(** [chrome.storage.sync]'s [settings] object, the fields the manager reads. *)
Record Settings := {
  apiEndpoint : string;
  apiKey : string;
  dataRetentionDays : option Z
}.

(** What the manager sends out. *)
Inductive Effect :=
| TabMessage (tabId : Z) (action : string)
| ProgressBroadcast (jobId : string) (tabId : Z) (progress : Z) (status : string)
    (extractedCount : nat)
| ApiPost (endpoint : string) (sessionId : string) (jobCount : nat)
| Download (filename mimeType content : string).

Record Manager := {
  activeScrapeJobs : list (Z * ScrapeJob);
  scrapingQueue : list QueuedJob;
  maxConcurrentScrapes : Z;
  local : LocalStore;
  settings : Settings;
  (** every effect emitted so far, oldest first *)
  emitted : list Effect
}.

(** The surroundings of one event: the clock, and whether
    [chrome.tabs.sendMessage] of an action to a tab is delivered ([None]) or rejects
    with a message. *)
Record Env := {
  now : Z;
  sendMessage : Z -> string -> option string
}.

(** [sendResponse] payloads *)
Inductive Response :=
| RSuccess
| RError (error : string)
| RQueued (position : nat)
| RStatus (active queue : nat).

(** *** The [Map] of running jobs *)

Definition map_has (tabId : Z) (jobs : list (Z * ScrapeJob)) : bool :=
  bool_decide (tabId ∈ jobs.*1).

Fixpoint map_get (tabId : Z) (jobs : list (Z * ScrapeJob)) : option ScrapeJob :=
  match jobs with
  | [] => None
  | (k, v) :: rest => if decide (k = tabId) then Some v else map_get tabId rest
  end.

Fixpoint map_set (tabId : Z) (job : ScrapeJob) (jobs : list (Z * ScrapeJob))
  : list (Z * ScrapeJob) :=
  match jobs with
  | [] => [(tabId, job)]
  | (k, v) :: rest =>
      if decide (k = tabId) then (k, job) :: rest else (k, v) :: map_set tabId job rest
  end.

Definition map_delete (tabId : Z) (jobs : list (Z * ScrapeJob)) : list (Z * ScrapeJob) :=
  filter (fun kv => kv.1 <> tabId) jobs.

Definition map_size (jobs : list (Z * ScrapeJob)) : Z := Z.of_nat (length jobs).

(** *** Field updates *)

Definition with_active (a : list (Z * ScrapeJob)) (m : Manager) : Manager :=
  {| activeScrapeJobs := a; scrapingQueue := scrapingQueue m;
     maxConcurrentScrapes := maxConcurrentScrapes m; local := local m;
     settings := settings m; emitted := emitted m |}.

Definition with_queue (q : list QueuedJob) (m : Manager) : Manager :=
  {| activeScrapeJobs := activeScrapeJobs m; scrapingQueue := q;
     maxConcurrentScrapes := maxConcurrentScrapes m; local := local m;
     settings := settings m; emitted := emitted m |}.

Definition with_local (s : LocalStore) (m : Manager) : Manager :=
  {| activeScrapeJobs := activeScrapeJobs m; scrapingQueue := scrapingQueue m;
     maxConcurrentScrapes := maxConcurrentScrapes m; local := s;
     settings := settings m; emitted := emitted m |}.

Definition emit (e : Effect) (m : Manager) : Manager :=
  {| activeScrapeJobs := activeScrapeJobs m; scrapingQueue := scrapingQueue m;
     maxConcurrentScrapes := maxConcurrentScrapes m; local := local m;
     settings := settings m; emitted := emitted m ++ [e] |}.

Definition update_job (status : string) (endTime lastUpd : option Z) (prog : Z)
    (extracted : list Job) (errs : list ErrorEntry) (job : ScrapeJob) : ScrapeJob :=
  {| job_id := job_id job; job_tabId := job_tabId job; job_params := job_params job;
     job_startTime := job_startTime job; job_status := status; progress := prog;
     extractedJobs := extracted; job_errors := errs; job_endTime := endTime;
     lastUpdate := lastUpd |}.

(** The constructor's state. *)
Definition initial (ceiling : Z) (cfg : Settings) : Manager :=
  {| activeScrapeJobs := []; scrapingQueue := []; maxConcurrentScrapes := ceiling;
     local := emptyStore; settings := cfg; emitted := [] |}.

(** *** History *)

Definition addToScrapingHistory (job : ScrapeJob) (m : Manager) : Manager :=
  let history := scrapingHistory (local m) in
  let history :=
    {| he_id := job_id job; he_params := job_params job;
       he_startTime := job_startTime job; he_status := job_status job;
       he_endTime := None; extractedCount := None |} :: history in
  let history := if bool_decide (50 < length history)%nat then take 50 history else history in
  with_local (set_scrapingHistory history (local m)) m.

Definition updateHistoryEntry (job : ScrapeJob) (entry : HistoryEntry) : HistoryEntry :=
  {| he_id := he_id entry; he_params := he_params entry;
     he_startTime := he_startTime entry; he_status := job_status job;
     he_endTime := job_endTime job;
     extractedCount := Some (Z.of_nat (length (extractedJobs job))) |}.

Definition updateScrapingHistory (job : ScrapeJob) (m : Manager) : Manager :=
  let history := scrapingHistory (local m) in
  match findIndex (fun entry => bool_decide (he_id entry = job_id job)) history with
  | Some index =>
      match history !! index with
      | Some entry =>
          with_local
            (set_scrapingHistory (<[index := updateHistoryEntry job entry]> history) (local m)) m
      | None => m
      end
  | None => m
  end.

(** *** Starting, queueing and cancelling *)

Definition newJob (now : Z) (tabId : Z) (scrapingParams : SearchParams) : ScrapeJob :=
  {| job_id := "job_" +:+ pretty now +:+ "_" +:+ pretty tabId;
     job_tabId := tabId;
     job_params := scrapingParams;
     job_startTime := now;
     job_status := "running";
     progress := 0;
     extractedJobs := [];
     job_errors := [];
     job_endTime := None;
     lastUpdate := None |}.

Definition startScrapeJob (env : Env) (tabId : Z) (scrapingParams : SearchParams)
    (m : Manager) : Manager * Outcome unit :=
  let scrapingJob := newJob (now env) tabId scrapingParams in
  let m := with_active (map_set tabId scrapingJob (activeScrapeJobs m)) m in
  match sendMessage env tabId "START_SCRAPING" with
  | None =>
      let m := emit (TabMessage tabId "START_SCRAPING") m in
      (addToScrapingHistory scrapingJob m, Returned ())
  | Some error =>
      (with_active (map_delete tabId (activeScrapeJobs m)) m, Thrown error)
  end.

Definition handleStartScraping (env : Env) (scrapingParams : SearchParams) (tabId : Z)
    (m : Manager) : Manager * Outcome Response :=
  if map_has tabId (activeScrapeJobs m) then
    (m, Returned (RError "Scraping already active in this tab"))
  else if maxConcurrentScrapes m <=? map_size (activeScrapeJobs m) then
    let m := with_queue
      (scrapingQueue m ++
         [{| q_tabId := tabId; q_scrapingParams := scrapingParams;
             q_timestamp := now env |}]) m in
    (m, Returned (RQueued (length (scrapingQueue m))))
  else
    match startScrapeJob env tabId scrapingParams m with
    | (m, Returned _) => (m, Returned RSuccess)
    | (m, Thrown error) => (m, Thrown error)
    end.

Definition processScrapingQueue (env : Env) (m : Manager) : Manager :=
  match scrapingQueue m with
  | queuedJob :: rest =>
      if map_size (activeScrapeJobs m) <? maxConcurrentScrapes m then
        let m := with_queue rest m in
        (startScrapeJob env (q_tabId queuedJob) (q_scrapingParams queuedJob) m).1
      else m
  | [] => m
  end.

Definition cancelScrapeJob (env : Env) (tabId : Z) (m : Manager) : Manager :=
  match map_get tabId (activeScrapeJobs m) with
  | Some job =>
      let job := update_job "cancelled" (Some (now env)) (lastUpdate job) (progress job)
                   (extractedJobs job) (job_errors job) job in
      let m := with_active (map_set tabId job (activeScrapeJobs m)) m in
      let m := match sendMessage env tabId "STOP_SCRAPING" with
               | None => emit (TabMessage tabId "STOP_SCRAPING") m
               | Some _ => m
               end in
      let m := updateScrapingHistory job m in
      let m := with_active (map_delete tabId (activeScrapeJobs m)) m in
      processScrapingQueue env m
  | None => m
  end.

Definition handleStopScraping := cancelScrapeJob.

Definition handleTabRemoved (env : Env) (tabId : Z) (m : Manager) : Manager :=
  if map_has tabId (activeScrapeJobs m) then cancelScrapeJob env tabId m else m.

(** *** Results, index and the external sink *)

Definition resultDataOf (job : ScrapeJob) : SessionData :=
  {| id := job_id job; params := job_params job; startTime := job_startTime job;
     endTime := job_endTime job; status := job_status job;
     jobs := Some (extractedJobs job); errors := job_errors job;
     sd_duration := (fun e => e - job_startTime job) <$> job_endTime job;
     sd_jobCount := Some (Z.of_nat (length (extractedJobs job)));
     migrated := false |}.

Definition maxEntries : nat := 100.

Definition updateScrapingIndex (jobId : string) (resultData : SessionData) (s : LocalStore)
  : LocalStore :=
  let indexEntry :=
    {| ie_id := jobId; timestamp := startTime resultData; ie_endTime := None;
       ie_params := params resultData;
       jobCount := sd_jobCount resultData;
       duration := sd_duration resultData;
       ie_status := status resultData; dataSize := None |} in
  let index := indexEntry :: scrapingIndex s in
  if bool_decide (maxEntries < length index)%nat then
    let removedEntries := drop maxEntries index in
    let index := take maxEntries index in
    let s := foldl (fun s entry => remove_results [ie_id entry] s) s removedEntries in
    set_scrapingIndex index s
  else set_scrapingIndex index s.

Definition saveScrapingResults (job : ScrapeJob) (m : Manager) : Manager :=
  let resultData := resultDataOf job in
  let s := set_results (<[job_id job := resultData]> (results (local m))) (local m) in
  with_local (updateScrapingIndex (job_id job) resultData s) m.

Definition sendToAPI (job : ScrapeJob) (m : Manager) : Manager :=
  let cfg := settings m in
  if String.eqb (apiEndpoint cfg) "" || String.eqb (apiKey cfg) "" then m
  else emit (ApiPost (apiEndpoint cfg) (job_id job) (length (extractedJobs job))) m.

Definition broadcastProgress (job : ScrapeJob) (m : Manager) : Manager :=
  emit (ProgressBroadcast (job_id job) (job_tabId job) (progress job) (job_status job)
          (length (extractedJobs job))) m.

(** [x || d] on an optional number *)
Definition or_default (x : option Z) (d : Z) : Z :=
  match x with
  | Some v => if v =? 0 then d else v
  | None => d
  end.

Definition handleProgressUpdate (env : Env) (progressData : ProgressData) (tabId : Z)
    (m : Manager) : Manager :=
  match map_get tabId (activeScrapeJobs m) with
  | Some job =>
      let job := update_job (job_status job) (job_endTime job) (Some (now env))
                   (or_default (pd_progress progressData) 0)
                   (extractedJobs job) (job_errors job) job in
      if String.eqb (pd_type progressData) "complete" then
        let job := update_job "completed" (Some (now env)) (lastUpdate job) (progress job)
                     (default [] (pd_data progressData)) (job_errors job) job in
        let m := saveScrapingResults job m in
        let m := sendToAPI job m in
        let m := with_active (map_delete tabId (activeScrapeJobs m)) m in
        let m := processScrapingQueue env m in
        broadcastProgress job m
      else if String.eqb (pd_type progressData) "error" then
        let job := update_job (job_status job) (job_endTime job) (lastUpdate job)
                     (progress job) (extractedJobs job)
                     (job_errors job ++
                        [{| err_timestamp := now env;
                            err_message := pd_message progressData |}]) job in
        let m := with_active (map_set tabId job (activeScrapeJobs m)) m in
        broadcastProgress job m
      else
        let m := with_active (map_set tabId job (activeScrapeJobs m)) m in
        broadcastProgress job m
  | None => m
  end.

(** *** Periodic tasks *)

Definition staleTime : Z := 30 * 60 * 1000.

(** [currentTime - job.lastUpdate > staleTime]; with [lastUpdate] absent the
    difference is [NaN] and the comparison is false. *)
Definition isStale (currentTime : Z) (job : ScrapeJob) : bool :=
  match lastUpdate job with
  | Some t => staleTime <? currentTime - t
  | None => false
  end.

Definition timeoutJob (currentTime : Z) (job : ScrapeJob) : ScrapeJob :=
  update_job "timeout" (Some currentTime) (lastUpdate job) (progress job)
    (extractedJobs job)
    (job_errors job ++
       [{| err_timestamp := currentTime;
           err_message := "Job timed out due to inactivity" |}]) job.

Definition checkStaleJob (currentTime : Z) (m : Manager) (kv : Z * ScrapeJob) : Manager :=
  let '(tabId, job) := kv in
  if isStale currentTime job then
    let job := timeoutJob currentTime job in
    let m := updateScrapingHistory job m in
    with_active (map_delete tabId (activeScrapeJobs m)) m
  else m.

Definition checkStaleJobs (env : Env) (m : Manager) : Manager :=
  let currentTime := now env in
  foldl (checkStaleJob currentTime) m (activeScrapeJobs m).

Definition cutoffTime (env : Env) (m : Manager) : Z :=
  let retentionDays := or_default (dataRetentionDays (settings m)) 30 in
  now env - retentionDays * 24 * 60 * 60 * 1000.

Definition cleanupOldData (env : Env) (m : Manager) : Manager :=
  let cutoff := cutoffTime env m in
  let index := scrapingIndex (local m) in
  let validEntries := filter (fun entry => cutoff < timestamp entry) index in
  let expiredIds := ie_id <$> filter (fun entry => ~ cutoff < timestamp entry) index in
  if bool_decide (0 < length expiredIds)%nat then
    let s := remove_results expiredIds (local m) in
    with_local (set_scrapingIndex validEntries s) m
  else m.

(** *** Export *)

(** A [filters] object.  The four optional clauses of [getScrapedData]
    (dates, title, location) each keep the entries that satisfy a test;
    together they are one test, [accepts]. *)
Record Filters := {
  accepts : IndexEntry -> bool;
  limit : option nat;
  all : bool
}.

Record ScrapedData := {
  summary : list IndexEntry;
  detailed : list SessionData
}.

Definition getScrapedData (filters : Filters) (m : Manager) : ScrapedData :=
  let filteredIndex := List.filter (accepts filters) (scrapingIndex (local m)) in
  (* [slice(0, filters.limit || 50)] *)
  let shown := take (match limit filters with Some (S n) => S n | _ => 50%nat end)
                    filteredIndex in
  {| summary := filteredIndex;
     detailed := omap (fun indexEntry => results (local m) !! ie_id indexEntry) shown |}.

Definition deleteScrapedData (filters : Filters) (m : Manager) : Manager :=
  if all filters then
    (* the index, the history and every [scraping_result_] key are removed *)
    with_local
      {| scrapingIndex := []; scrapingHistory := []; results := ∅;
         storageStats := storageStats (local m) |} m
  else
    let data := getScrapedData filters m in
    let idsToDelete := ie_id <$> summary data in
    let s := foldl (fun s id => remove_results [id] s) (local m) idsToDelete in
    let updatedIndex := filter (fun entry => ie_id entry ∉ idsToDelete) (scrapingIndex s) in
    with_local (set_scrapingIndex updatedIndex s) m.

Section export.
(** [JSON.stringify(_, null, 2)] and [convertToCSV] *)
Variable stringify : list SessionData -> string.
Variable convertToCSV : list SessionData -> string.

(** The [switch (format)] of [exportData]. *)
Definition exportFile (env : Env) (format : JsVal) (data : ScrapedData) : Outcome Effect :=
  match format with
  | JStr kind =>
      if String.eqb kind "json" then
        Returned (Download ("linkedin_jobs_" +:+ pretty (now env) +:+ ".json")
                    "application/json" (stringify (detailed data)))
      else if String.eqb kind "csv" then
        Returned (Download ("linkedin_jobs_" +:+ pretty (now env) +:+ ".csv")
                    "text/csv" (convertToCSV (detailed data)))
      else Thrown "Unsupported export format"
  | _ => Thrown "Unsupported export format"
  end.

(** The body is one [try]; its [catch] logs to the console and returns. *)
Definition exportData (env : Env) (format : JsVal) (filters : Filters) (m : Manager)
  : Manager :=
  match exportFile env format (getScrapedData filters m) with
  | Returned download => emit download m
  | Thrown _ => m
  end.

(** *** Message dispatch *)

Inductive Message :=
| START_SCRAPING (data : SearchParams)
| STOP_SCRAPING
| PROGRESS_UPDATE (data : ProgressData)
| GET_SCRAPING_STATUS
| EXPORT_DATA (format : JsVal) (filters : Filters)
| DELETE_SCRAPED_DATA (filters : Filters)
| OTHER (action : string).

(** [handleMessage], with [sender.tab.id]; reading data and the settings
    actions are not part of this development and [OTHER] stands for an
    action that the [switch] does not know. *)
Definition handleMessage (env : Env) (message : Message) (tabId : Z) (m : Manager)
  : Manager * Response :=
  match message with
  | START_SCRAPING data =>
      match handleStartScraping env data tabId m with
      | (m, Returned r) => (m, r)
      | (m, Thrown error) => (m, RError error)
      end
  | STOP_SCRAPING => (handleStopScraping env tabId m, RSuccess)
  | PROGRESS_UPDATE data => (handleProgressUpdate env data tabId m, RSuccess)
  | GET_SCRAPING_STATUS =>
      (m, RStatus (length (activeScrapeJobs m)) (length (scrapingQueue m)))
  | EXPORT_DATA format filters => (exportData env format filters m, RSuccess)
  | DELETE_SCRAPED_DATA filters => (deleteScrapedData filters m, RSuccess)
  | OTHER _ => (m, RError "Unknown action")
  end.
End export.

(** *** Event traces *)

Inductive Event :=
| Submit (tabId : Z) (scrapingParams : SearchParams)
| Stop (tabId : Z)
| Progress (tabId : Z) (progressData : ProgressData)
| TabRemoved (tabId : Z)
| DeleteData (filters : Filters)
| WatchdogTick
| RetentionSweep.

Definition step (m : Manager) (ev : Env * Event) : Manager :=
  let '(env, e) := ev in
  match e with
  | Submit tabId scrapingParams => (handleStartScraping env scrapingParams tabId m).1
  | Stop tabId => handleStopScraping env tabId m
  | Progress tabId progressData => handleProgressUpdate env progressData tabId m
  | TabRemoved tabId => handleTabRemoved env tabId m
  | DeleteData filters => deleteScrapedData filters m
  | WatchdogTick => checkStaleJobs env m
  | RetentionSweep => cleanupOldData env m
  end.

Definition run (m : Manager) (trace : list (Env * Event)) : Manager :=
  foldl step m trace.

(** A sequence of submissions, with the answers in order. *)
Fixpoint submitAll (m : Manager) (subs : list (Env * Z * SearchParams))
  : Manager * list (Outcome Response) :=
  match subs with
  | [] => (m, [])
  | (env, tabId, scrapingParams) :: rest =>
      let '(m, r) := handleStartScraping env scrapingParams tabId m in
      let '(m, rs) := submitAll m rest in
      (m, r :: rs)
  end.

End Background.

(** * Text helpers of the CSV writers *)

Definition quoteChar : Ascii.ascii := Ascii.ascii_of_nat 34.
Definition commaChar : Ascii.ascii := Ascii.ascii_of_nat 44.
Definition newlineChar : Ascii.ascii := Ascii.ascii_of_nat 10.

(** The [replace] of the CSV writers: every double quote of [value] is
    written twice. *)
Fixpoint doubleQuotes (value : string) : string :=
  match value with
  | EmptyString => EmptyString
  | String c rest =>
      if Ascii.eqb c quoteChar then String quoteChar (String quoteChar (doubleQuotes rest))
      else String c (doubleQuotes rest)
  end.

(** The template literal that puts [value] between two double quotes. *)
Definition inQuotes (value : string) : string :=
  String quoteChar (value +:+ String quoteChar EmptyString).

(** [str.includes(c)] for a string [c] of one character *)
Fixpoint includesChar (c : Ascii.ascii) (str : string) : bool :=
  match str with
  | EmptyString => false
  | String c' rest => Ascii.eqb c' c || includesChar c rest
  end.

(** * utils/storage.js: pages, statistics and CSV *)

Module StorageReports.

(** What [getScrapingSessions] returns. *)
Record SessionsPage := {
  sessions : list SessionData;
  total : nat;
  hasMore : bool;
  nextOffset : nat
}.

Definition getScrapingSessionsPage (limit offset : nat) (filters : IndexEntry -> bool)
    (s : LocalStore) : SessionsPage :=
  let index := Storage.applyFilters filters (scrapingIndex s) in
  let index := js_sort (fun a b => timestamp b - timestamp a) index in
  {| sessions := Storage.getScrapingSessions limit offset filters s;
     total := length index;
     hasMore := bool_decide (offset + limit < length index)%nat;
     nextOffset := (offset + limit)%nat |}.

(** *** Statistics *)

Definition ageLimit : Z := 60 * 60 * 1000.

(** The stored statistics, recalculated first when they are older than an
    hour; the store is returned with them since the recalculation writes. *)
Definition getStorageStats (now : Z) (s : LocalStore) : LocalStore * StorageStats :=
  let stats :=
    default {| totalJobs := 0; totalSessions := 0; storageUsed := 0; lastCalculated := now |}
            (storageStats s) in
  if ageLimit <? now - lastCalculated stats then
    let s := Storage.calculateStorageStats now s in
    (s, default stats (storageStats s))
  else (s, stats).

(** *** CSV *)

Definition jobHeaders : list string :=
  ["jobId"; "jobTitle"; "companyName"; "location"; "jobUrl";
   "jobDescription"; "seniorityLevel"; "employmentType"; "jobFunction";
   "industries"; "applicants"; "datePosted"; "listingDate"].

Definition sessionHeaders : list string := ["sessionId"; "searchParams"; "sessionDate"].

(** The columns: the session columns are added when the first record
    carries a session id. *)
Definition csvHeaders (jobs : list Job) : list string :=
  match jobs with
  | job :: _ =>
      if truthy (prop job "sessionId") then jobHeaders ++ sessionHeaders else jobHeaders
  | [] => jobHeaders
  end.

(** [(job[header] || '').toString()]; the values of a record are
    primitives, so the [typeof value === 'object'] branch is not taken. *)
Definition cellText (job : Job) (header : string) : string :=
  let value := prop job header in
  toString (if truthy value then value else JStr "").

Definition csvCell (job : Job) (header : string) : string :=
  inQuotes (doubleQuotes (cellText job header)).

Definition csvRow (headers : list string) (job : Job) : string :=
  String.concat "," (csvCell job <$> headers).

Definition convertJobsToCSV (jobs : list Job) : string :=
  match jobs with
  | [] => ""
  | _ =>
      let headers := csvHeaders jobs in
      let csvRows := String.concat "," headers :: (csvRow headers <$> jobs) in
      String.concat (String newlineChar EmptyString) csvRows
  end.

End StorageReports.

(** * content/content.js: the listing pass *)

Module Content.

(** [processedJobIds], a [Set]: the values added, in insertion order. *)
Definition set_has (v : JsVal) (s : list JsVal) : bool := bool_decide (v ∈ s).

Definition set_add (v : JsVal) (s : list JsVal) : list JsVal :=
  if set_has v s then s else s ++ [v].

Record Scraper := {
  extractedJobs : list Job;
  processedJobIds : list JsVal
}.

(** The loop of [extractJobListings] over the job cards of the page; each
    card is given by what [extractJobListingData] does on it, a record or an
    exception, which the loop logs and skips. *)
Fixpoint extractJobListings_from (processed : list JsVal) (jobs : list Job)
    (jobElements : list (Outcome Job)) : list JsVal * list Job :=
  match jobElements with
  | [] => (processed, jobs)
  | Thrown _ :: rest => extractJobListings_from processed jobs rest
  | Returned jobData :: rest =>
      let jobId := prop jobData "jobId" in
      if set_has jobId processed then extractJobListings_from processed jobs rest
      else extractJobListings_from (set_add jobId processed) (jobs ++ [jobData]) rest
  end.

Definition extractJobListings (processed : list JsVal) (jobElements : list (Outcome Job))
  : list JsVal * list Job :=
  extractJobListings_from processed [] jobElements.

(** One turn of the page loop of [handleScrapeRequest]. *)
Definition scrapePage (scraper : Scraper) (jobElements : list (Outcome Job)) : Scraper :=
  let '(processed, jobListings) := extractJobListings (processedJobIds scraper) jobElements in
  {| extractedJobs := extractedJobs scraper ++ jobListings;
     processedJobIds := processed |}.

(** The listing pass over the pages that are visited before the pass ends
    or is stopped; it starts from an empty list and a cleared set. *)
Definition scrapeListings (pages : list (list (Outcome Job))) : Scraper :=
  foldl scrapePage {| extractedJobs := []; processedJobIds := [] |} pages.

End Content.

(** * utils/helpers.js *)

Module Helpers.


Definition durationMinutes (startTime endTime : Z) : Z :=
  (endTime - startTime) / 60000.

(** [%] takes the sign of the dividend, [Math.floor] rounds down. *)
Definition durationSeconds (startTime endTime : Z) : Z :=
  Z.rem (endTime - startTime) 60000 / 1000.

Definition calculateDuration (startTime endTime : Z) : string :=
  pretty (durationMinutes startTime endTime) +:+ "m " +:+
  pretty (durationSeconds startTime endTime) +:+ "s".

Definition escapeCSV (field : JsVal) : string :=
  match field with
  | JNull | JUndefined => ""
  | _ =>
      let str := toString field in
      if includesChar commaChar str || includesChar quoteChar str
         || includesChar newlineChar str
      then inQuotes (doubleQuotes str)
      else str
  end.

(** *** Cleaning text *)

(** [\s] of a regular expression and the characters [trim] strips, among
    the code units below 256: tab, line feed, vertical tab, form feed,
    carriage return, space and no-break space. *)
Definition isWhiteSpace (c : Ascii.ascii) : bool :=
  let n := Ascii.nat_of_ascii c in
  ((9 <=? n) && (n <=? 13) || (n =? 32) || (n =? 160))%nat.




Fixpoint trimStart (str : string) : string :=
  match str with
  | EmptyString => EmptyString
  | String c rest => if isWhiteSpace c then trimStart rest else str
  end.

Fixpoint trimEnd (str : string) : string :=
  match str with
  | EmptyString => EmptyString
  | String c rest =>
      match trimEnd rest with
      | EmptyString => if isWhiteSpace c then EmptyString else String c EmptyString
      | kept => String c kept
      end
  end.

Definition trim (str : string) : string := trimEnd (trimStart str).



End Helpers.

(** * Vocabulary of the specification *)

(** The quota eviction of the write path: a quarter of the indexed sessions
    (rounded down), none newer than a session that stays, leave the index
    and the result store; every other session record is as it was. *)
Definition evicts_oldest_quarter (before after : LocalStore) : Prop :=
  exists evicted kept : list IndexEntry,
    scrapingIndex before ≡ₚ evicted ++ kept /\
    length evicted = (length (scrapingIndex before) / 4)%nat /\
    (forall e r, e ∈ evicted -> r ∈ kept -> timestamp e <= timestamp r) /\
    scrapingIndex after =
      filter (fun entry => ie_id entry ∉ ie_id <$> evicted) (scrapingIndex before) /\
    scrapingIndex after ≡ₚ kept /\
    (forall e, e ∈ evicted ->
       results after !! ie_id e = None /\ ie_id e ∉ ie_id <$> scrapingIndex after) /\
    (forall i, i ∉ ie_id <$> evicted -> results after !! i = results before !! i).

(** No entry that left the index is newer than one that stayed. *)
Definition retains_newest (upserted retained : list IndexEntry) : Prop :=
  forall kept gone,
    kept ∈ retained -> gone ∈ upserted -> gone ∉ retained ->
    timestamp gone <= timestamp kept.

(** The index lists sessions newest first. *)
Definition newest_first (index : list IndexEntry) : Prop :=
  StronglySorted (fun a b => timestamp b <= timestamp a) index.

(** Two result records carry the same (id, URL). *)
Definition same_id_url (a b : Job) : Prop :=
  prop a "jobId" = prop b "jobId" /\ prop a "jobUrl" = prop b "jobUrl".

(** The orchestrator runs no more jobs than its ceiling [C]. *)
Definition within_ceiling (C : Z) (m : Background.Manager) : Prop :=
  Background.maxConcurrentScrapes m = C /\
  Background.map_size (Background.activeScrapeJobs m) <= C.

(** The submissions that were answered [queued], each with the position
    its caller was told, in submission order. *)
Definition queuedAnswers (subs : list (Background.Env * Z * SearchParams))
    (answers : list (Outcome Background.Response)) : list (Z * nat) :=
  omap (fun sa : (Background.Env * Z * SearchParams) * Outcome Background.Response =>
          match sa.2 with
          | Returned (Background.RQueued position) => Some (sa.1.1.2, position)
          | _ => None
          end)
       (zip subs answers).

(** The contexts of a sequence of submissions, and whether the start signal
    of each would be delivered. *)
Definition contextsOf (subs : list (Background.Env * Z * SearchParams)) : list Z :=
  (fun sub : Background.Env * Z * SearchParams => sub.1.2) <$> subs.

Definition allDelivered (subs : list (Background.Env * Z * SearchParams)) : Prop :=
  Forall (fun sub : Background.Env * Z * SearchParams =>
            Background.sendMessage sub.1.1 sub.1.2 "START_SCRAPING" = None) subs.

(** The event comes from the context [tabId]: a submission, a stop request,
    a progress report or the removal of the tab. *)
Definition concerns (tabId : Z) (e : Background.Event) : bool :=
  match e with
  | Background.Submit t _ | Background.Stop t
  | Background.Progress t _ | Background.TabRemoved t => bool_decide (t = tabId)
  | _ => false
  end.


(** The admission rule of [submit]: reject, run or queue. *)
Definition admission_rule (env : Background.Env) (scrapingParams : SearchParams)
    (tabId : Z) (m : Background.Manager) : Prop :=
  let result := Background.handleStartScraping env scrapingParams tabId m in
  let job := Background.newJob (Background.now env) tabId scrapingParams in
  if Background.map_has tabId (Background.activeScrapeJobs m) then
    result = (m, Returned (Background.RError "Scraping already active in this tab"))
  else if decide (Background.map_size (Background.activeScrapeJobs m)
                  < Background.maxConcurrentScrapes m) then
    match Background.sendMessage env tabId "START_SCRAPING" with
    | None =>
        result.2 = Returned Background.RSuccess /\
        Background.map_get tabId (Background.activeScrapeJobs result.1) = Some job /\
        Background.job_status job = "running" /\
        Background.map_size (Background.activeScrapeJobs result.1)
          = Background.map_size (Background.activeScrapeJobs m) + 1 /\
        Background.scrapingQueue result.1 = Background.scrapingQueue m /\
        Background.emitted result.1
          = Background.emitted m ++ [Background.TabMessage tabId "START_SCRAPING"]
    | Some error =>
        result.2 = Thrown error /\
        Background.activeScrapeJobs result.1 = Background.activeScrapeJobs m /\
        Background.scrapingQueue result.1 = Background.scrapingQueue m
    end
  else
    result =
      (Background.with_queue
         (Background.scrapingQueue m ++
            [{| Background.q_tabId := tabId;
                Background.q_scrapingParams := scrapingParams;
                Background.q_timestamp := Background.now env |}]) m,
       Returned (Background.RQueued (S (length (Background.scrapingQueue m))))).

(** The contexts whose job a watchdog tick at [currentTime] removes. *)
Definition staleKeys (currentTime : Z) (jobs : list (Z * Background.ScrapeJob)) : list Z :=
  (filter (fun kv : Z * Background.ScrapeJob => Background.isStale currentTime kv.2 = true)
     jobs).*1.


(** ** Vocabulary of the further properties *)

(** A value that is neither [null] nor [undefined]. *)
Definition not_nullish (v : JsVal) : Prop := v <> JNull /\ v <> JUndefined.

(** The statistics describe the index: its length and the sums of its job
    counts and data sizes. *)
Definition statsMatchIndex (stats : StorageStats) (index : list IndexEntry) : Prop :=
  totalSessions stats = Z.of_nat (length index) /\
  totalJobs stats = foldr Z.add 0 ((fun entry => default 0 (jobCount entry)) <$> index) /\
  storageUsed stats = foldr Z.add 0 ((fun entry => default 0 (dataSize entry)) <$> index).

(** The statistics that are read at [later] from a store written at [now]:
    they describe its index, reading them changes neither the index nor the
    records, and within the hour nothing is written at all. *)
Definition statsAreCurrent (now later : Z) (written : LocalStore) : Prop :=
  let answer := StorageReports.getStorageStats later written in
  statsMatchIndex answer.2 (scrapingIndex written) /\
  scrapingIndex answer.1 = scrapingIndex written /\
  results answer.1 = results written /\
  (later - now <= StorageReports.ageLimit ->
   answer.1 = written /\ lastCalculated answer.2 = now).

(** The table a CSV text is written from: for every record the text of its
    cell in every column. *)
Definition csvTable (jobs : list Job) : list (list string) :=
  (fun job => StorageReports.cellText job <$> StorageReports.csvHeaders jobs) <$> jobs.

Definition starts_with_quote (r : string) : Prop := exists r', r = String quoteChar r'.

(** A cell as it is written: its text with the quotes doubled, in quotes. *)
Definition quoted (text : string) : string := inQuotes (doubleQuotes text).

(** What may follow a row: nothing, or a line break. *)
Definition row_end (r : string) : Prop := r = "" \/ exists r', r = String newlineChar r'.

(** The record of a job card, when its extraction did not throw. *)
Definition returned {A} (o : Outcome A) : option A :=
  match o with Returned a => Some a | Thrown _ => None end.

Definition listedId (job : Job) : JsVal := prop job "jobId".




(** The caps of the service worker on the stored history and index. *)
Definition withinStoreCaps (s : LocalStore) : Prop :=
  (length (scrapingHistory s) <= 50)%nat /\
  (length (scrapingIndex s) <= Background.maxEntries)%nat.

(** Nothing was saved: the session records and the index are as before. *)
Definition savedNothing (before after : Background.Manager) : Prop :=
  results (Background.local after) = results (Background.local before) /\
  scrapingIndex (Background.local after) = scrapingIndex (Background.local before).

(** * Scenarios *)

Definition someParams : SearchParams :=
  {| jobTitle := "Engineer"; location := "City A"; numPages := 5 |}.

Definition sessionAt (name : string) (started : Z) : SessionData :=
  {| id := name; params := someParams; startTime := started;
     endTime := Some (started + 60000); status := "completed";
     jobs := Some []; errors := []; sd_duration := Some 60000; sd_jobCount := Some 0;
     migrated := false |}.

(** The store that holds the given sessions, first listed first in the index. *)
Definition storeOf (sessions : list SessionData) : LocalStore :=
  {| scrapingIndex := Storage.indexEntryOf (fun _ => 0) <$> sessions;
     scrapingHistory := [];
     results := list_to_map ((fun d => (id d, d)) <$> sessions);
     storageStats := None |}.

(** A full index, newest first: session [s<n>] started at [2000 - n]. *)
Definition fullIndexSessions : list SessionData :=
  (fun n : nat => sessionAt ("s" +:+ pretty n) (2000 - Z.of_nat n)) <$> seq 0 1000.

(** A session that started before all of them and was saved last. *)
Definition lateSession : SessionData := sessionAt "late" 1.

(** Eight indexed sessions, in no particular order of age. *)
Definition eightSessions : list SessionData :=
  [sessionAt "h" 80; sessionAt "c" 30; sessionAt "a" 10; sessionAt "f" 60;
   sessionAt "b" 20; sessionAt "g" 70; sessionAt "d" 40; sessionAt "e" 50].

(** An environment in which every tab answers. *)
Definition quietEnv (t : Z) : Background.Env :=
  {| Background.now := t; Background.sendMessage := fun _ _ => None |}.

Definition noSettings : Background.Settings :=
  {| Background.apiEndpoint := ""; Background.apiKey := "";
     Background.dataRetentionDays := None |}.

Definition infoUpdate (percent : Z) : Background.ProgressData :=
  {| Background.pd_type := "info"; Background.pd_progress := Some percent;
     Background.pd_message := "Scraping page"; Background.pd_data := None |}.

Definition completeUpdate : Background.ProgressData :=
  {| Background.pd_type := "complete"; Background.pd_progress := Some 100;
     Background.pd_message := "Successfully scraped 0 jobs"; Background.pd_data := Some [] |}.

Definition minutes (n : Z) : Z := n * 60 * 1000.

(** Ceiling 2.  Contexts 1 and 2 are admitted, 3 and 4 wait.  Job 1 last
    reported in the first minute, job 2 at minute 20. *)
Definition twoRunningTwoQueued : list (Background.Env * Background.Event) :=
  [ (quietEnv 0, Background.Submit 1 someParams);
    (quietEnv 1, Background.Submit 2 someParams);
    (quietEnv 2, Background.Submit 3 someParams);
    (quietEnv 3, Background.Submit 4 someParams);
    (quietEnv 4, Background.Progress 1 (infoUpdate 10));
    (quietEnv (minutes 20), Background.Progress 2 (infoUpdate 10)) ].

(** Ceiling 2.  Context 1 starts a job and reports once; meanwhile context 2
    starts and stops fifty short jobs. *)
Definition fiftyShortJobs : list (Background.Env * Background.Event) :=
  (quietEnv 0, Background.Submit 1 someParams) ::
  (quietEnv 1, Background.Progress 1 (infoUpdate 10)) ::
  concat ((fun k : nat =>
             [ (quietEnv (10 + Z.of_nat k), Background.Submit 2 someParams);
               (quietEnv (10 + Z.of_nat k), Background.Stop 2) ]) <$> seq 0 50).




(** ** Inputs of the further properties *)

(** An environment in which no tab can be reached. *)
Definition deafEnv (t : Z) : Background.Env :=
  {| Background.now := t;
     Background.sendMessage := fun _ _ => Some "Could not establish connection" |}.

Fixpoint repeatText (n : nat) (text : string) : string :=
  match n with
  | O => ""
  | S n => text +:+ repeatText n text
  end.

(** A description of 1400 characters. *)
Definition longDescription : string := repeatText 100 "Build things. ".

Definition describedJob : Job :=
  {[ "jobId" := JStr "41"; "jobDescription" := JStr longDescription ]}.

(** A record of a posting as the listing pass extracts it. *)
Definition posting (jobId url : string) : Job :=
  {[ "jobId" := JStr jobId; "jobUrl" := JStr url; "jobTitle" := JStr "Engineer" ]}.

(** A session with the given records. *)
Definition sessionWith (name : string) (started : Z) (records : list Job) : SessionData :=
  {| id := name; params := someParams; startTime := started;
     endTime := Some (started + 60000); status := "completed";
     jobs := Some records; errors := []; sd_duration := Some 60000;
     sd_jobCount := Some (Z.of_nat (length records)); migrated := false |}.

Definition completeWith (records : list Job) : Background.ProgressData :=
  {| Background.pd_type := "complete"; Background.pd_progress := Some 100;
     Background.pd_message := "Successfully scraped"; Background.pd_data := Some records |}.

(** Ceiling 2.  Context 1 runs a job. *)
Definition oneRunning : Background.Manager :=
  Background.run (Background.initial 2 noSettings)
    [ (quietEnv 0, Background.Submit 1 someParams) ].

(** Ceiling 2.  Contexts 1 and 2 run, context 3 asks twice and waits at
    two places; then job 1 completes and the first request of context 3
    is started. *)
Definition contextThreeQueuedTwice : list (Background.Env * Background.Event) :=
  [ (quietEnv 0, Background.Submit 1 someParams);
    (quietEnv 1, Background.Submit 2 someParams);
    (quietEnv 2, Background.Submit 3 someParams);
    (quietEnv 3, Background.Submit 3 someParams);
    (quietEnv 4, Background.Progress 1 completeUpdate) ].

(** Ceiling 2.  Contexts 1 and 2 run and context 3 waits. *)
Definition twoRunningOneQueued : list (Background.Env * Background.Event) :=
  [ (quietEnv 0, Background.Submit 1 someParams);
    (quietEnv 1, Background.Submit 2 someParams);
    (quietEnv 2, Background.Submit 3 someParams) ].


(** The state in which a handler drains the queue: the job of [tabId] has
    just left the registry. *)
Definition slotFreed (tabId : Z) (m : Background.Manager) : Background.Manager :=
  Background.with_active (Background.map_delete tabId (Background.activeScrapeJobs m)) m.

(** * Properties *)

(** Decide a closed proposition by evaluation. *)
Ltac by_evaluation :=
  match goal with
  | |- ?P => refine (bool_decide_unpack P _); vm_compute; exact I
  end.

(** ** Arrays *)

Section array_facts.
Context {A : Type}.
Implicit Types (l : list A) (cmp : A -> A -> Z).

Lemma sort_insert_Permutation cmp x l : sort_insert cmp x l ≡ₚ x :: l.
Proof.
  induction l as [|y l IH]; simpl; [done|].
  destruct (cmp x y <=? 0); [done|].
  rewrite IH. apply Permutation_swap.
Qed.

Lemma js_sort_Permutation cmp l : js_sort cmp l ≡ₚ l.
Proof.
  induction l as [|x l IH]; simpl; [done|].
  rewrite sort_insert_Permutation. by f_equiv.
Qed.

Lemma js_sort_length cmp l : length (js_sort cmp l) = length l.
Proof. by rewrite js_sort_Permutation. Qed.

Lemma findIndex_Some (p : A -> bool) (l : list A) i :
  findIndex p l = Some i -> exists x, l !! i = Some x /\ p x = true.
Proof.
  revert i. induction l as [|y l IH]; intros i; simpl; [done|].
  destruct (p y) eqn:Hp.
  - intros [= <-]. by exists y.
  - destruct (findIndex p l) as [j|]; [|done]. simpl. intros [= <-].
    destruct (IH j eq_refl) as (x & Hx & Hpx). by exists x.
Qed.

Lemma findIndex_None (p : A -> bool) (l : list A) x :
  findIndex p l = None -> x ∈ l -> p x = false.
Proof.
  induction l as [|y l IH]; simpl; [by rewrite elem_of_nil|].
  destruct (p y) eqn:Hp; [done|].
  destruct (findIndex p l); [done|]. intros _. rewrite elem_of_cons.
  intros [->|Hin]; [done | by apply IH].
Qed.

(** Sorting by an integer key, ascending. *)
Variable key : A -> Z.
Let by_key (a b : A) : Z := key a - key b.
Let key_le (a b : A) : Prop := key a <= key b.

Lemma sort_insert_sorted x l :
  StronglySorted key_le l -> StronglySorted key_le (sort_insert by_key x l).
Proof.
  induction 1 as [|y l Hl IH Hy]; simpl.
  - repeat constructor.
  - destruct (Z.leb_spec (by_key x y) 0) as [Hle|Hgt]; subst by_key key_le; simpl in *.
    + constructor; [by constructor|].
      constructor; [lia|].
      eapply Forall_impl; [exact Hy|]. intros z Hz; simpl in *. lia.
    + constructor; [done|].
      rewrite sort_insert_Permutation. constructor; [lia | done].
Qed.

Lemma js_sort_sorted l : StronglySorted key_le (js_sort by_key l).
Proof.
  induction l as [|x l IH]; simpl; [constructor|].
  by apply sort_insert_sorted.
Qed.

Lemma sorted_take_drop_le l n a b :
  StronglySorted key_le l -> a ∈ take n l -> b ∈ drop n l -> key a <= key b.
Proof.
  intros Hs Ha Hb. rewrite <- (take_drop n l) in Hs.
  exact (StronglySorted_app_1_elem_of _ _ _ _ _ Hs Ha Hb).
Qed.
End array_facts.

(** ** Storage engine *)

Section storage_facts.
Variable parseDate : JsVal -> option string.
Variable trim : string -> string.
Variable collapseWhitespace : string -> string.
Variable getDataSize : SessionData -> Z.
Variable getBytesInUse : LocalStore -> Z.
Variable QUOTA_BYTES : Z.

Let optimizeDataForStorage := Storage.optimizeDataForStorage parseDate trim collapseWhitespace.
Let checkStorageQuota := Storage.checkStorageQuota getBytesInUse QUOTA_BYTES.
Let updateScrapingIndex_cap := Storage.updateScrapingIndex_cap getDataSize.
Let writeSession_cap := Storage.writeSession_cap getDataSize.
Let saveScrapingSession :=
  Storage.saveScrapingSession parseDate trim collapseWhitespace getDataSize
    getBytesInUse QUOTA_BYTES.

(** *** Result keys *)

Lemma lookup_foldr_delete (m : gmap string SessionData) (ids : list string) (i : string) :
  foldr delete m ids !! i = if decide (i ∈ ids) then None else m !! i.
Proof.
  induction ids as [|k ids IH]; simpl; [done|].
  destruct (decide (k = i)) as [->|Hne].
  - rewrite lookup_delete_eq. rewrite decide_True; [done | left].
  - rewrite lookup_delete_ne by done. rewrite IH.
    destruct (decide (i ∈ ids)) as [Hin|Hnin].
    + rewrite decide_True; [done | by right].
    + rewrite decide_False; [done|]. rewrite elem_of_cons. intros [?|?]; [congruence | done].
Qed.

Lemma results_remove_results ids s i :
  results (remove_results ids s) !! i = if decide (i ∈ ids) then None else results s !! i.
Proof. apply lookup_foldr_delete. Qed.

(** *** Deduplication *)

Lemma deduplicateJobs_from_sublist seen jobs :
  sublist (Storage.deduplicateJobs_from seen jobs) jobs.
Proof.
  revert seen. induction jobs as [|job rest IH]; intros seen; simpl; [done|].
  case_decide; [by apply sublist_cons | by apply sublist_skip].
Qed.

Lemma deduplicateJobs_from_keys seen jobs key :
  (key ∈ Storage.jobKey <$> Storage.deduplicateJobs_from seen jobs) <->
  (key ∉ seen /\ key ∈ Storage.jobKey <$> jobs).
Proof.
  revert seen. induction jobs as [|job rest IH]; intros seen; csimpl.
  - rewrite elem_of_nil. tauto.
  - case_decide as Hseen; csimpl.
    + rewrite IH, elem_of_cons. split; [tauto|].
      intros [Hk [->|Hin]]; [done | tauto].
    + rewrite !elem_of_cons, IH. split.
      * intros [->|[Hk Hin]]; [tauto|]. split; [set_solver | tauto].
      * intros [Hk [->|Hin]]; [tauto|].
        destruct (decide (key = Storage.jobKey job)); [tauto|]. right. set_solver.
Qed.

Lemma deduplicateJobs_from_NoDup seen jobs :
  NoDup (Storage.jobKey <$> Storage.deduplicateJobs_from seen jobs).
Proof.
  revert seen. induction jobs as [|job rest IH]; intros seen; csimpl; [constructor|].
  case_decide; [apply IH|].
  csimpl. constructor; [|apply IH].
  rewrite deduplicateJobs_from_keys. set_solver.
Qed.

(** The persisted list never holds two records with one key, hence never
    two with one (id, URL). *)
Lemma deduplicateJobs_NoDup jobs :
  NoDup (Storage.jobKey <$> Storage.deduplicateJobs jobs).
Proof. apply deduplicateJobs_from_NoDup. Qed.

Lemma same_id_url_jobKey a b : same_id_url a b -> Storage.jobKey a = Storage.jobKey b.
Proof. intros [Hi Hu]. unfold Storage.jobKey. by rewrite Hi, Hu. Qed.




Lemma compressJob_prop job field :
  field <> "jobDescription" -> field <> "_compressed" ->
  prop (Storage.compressJob trim collapseWhitespace job) field = prop job field.
Proof.
  intros Hd Hc. unfold Storage.compressJob, prop.
  destruct (job !! "jobDescription") as [[| | | |d]|]; try done.
  case_match; [|done]. by rewrite !lookup_insert_ne.
Qed.

Lemma compressJob_jobKey job :
  Storage.jobKey (Storage.compressJob trim collapseWhitespace job) = Storage.jobKey job.
Proof. unfold Storage.jobKey. by rewrite !compressJob_prop. Qed.

(** What [optimizeDataForStorage] hands to the write never holds two
    records with one key. *)
Lemma optimizeDataForStorage_NoDup data js :
  jobs (optimizeDataForStorage data) = Some js ->
  jobs data <> None ->
  NoDup (Storage.jobKey <$> js).
Proof.
  unfold optimizeDataForStorage, Storage.optimizeDataForStorage.
  destruct (jobs data) as [js0|]; [|done]. simpl. intros [= <-] _.
  rewrite <- list_fmap_compose.
  erewrite list_fmap_ext; [apply deduplicateJobs_NoDup|].
  intros i j _. apply compressJob_jobKey.
Qed.

(** *** Quota *)

Lemma usageHigh_spec s :
  0 < QUOTA_BYTES ->
  Storage.usageHigh getBytesInUse QUOTA_BYTES s = true <->
  80 * QUOTA_BYTES < 100 * getBytesInUse s.
Proof.
  intros Hq. unfold Storage.usageHigh, Storage.usagePercent.
  rewrite negb_true_iff, <- not_true_iff_false, Qle_bool_iff.
  destruct QUOTA_BYTES as [|q|q]; try lia.
  unfold Qle, Qdiv, Qmult, Qinv, inject_Z; simpl. lia.
Qed.

Lemma filter_all {A} (P : A -> Prop) `{forall x, Decision (P x)} (l : list A) :
  (forall x, x ∈ l -> P x) -> filter P l = l.
Proof.
  induction l as [|x l IH]; intros Hall; [done|].
  rewrite filter_cons_True by (apply Hall; left).
  f_equal. apply IH. intros y Hy. apply Hall. by right.
Qed.

Lemma filter_none {A} (P : A -> Prop) `{forall x, Decision (P x)} (l : list A) :
  (forall x, x ∈ l -> ~ P x) -> filter P l = [].
Proof.
  induction l as [|x l IH]; intros Hall; [done|].
  rewrite filter_cons_False by (apply Hall; left).
  apply IH. intros y Hy. apply Hall. by right.
Qed.

Lemma filter_take_drop {A} (P : A -> Prop) `{forall x, Decision (P x)} (l : list A) k :
  (forall x, x ∈ take k l -> ~ P x) -> (forall x, x ∈ drop k l -> P x) ->
  filter P l = drop k l.
Proof.
  intros Ht Hd. transitivity (filter P (take k l ++ drop k l)).
  - by rewrite take_drop.
  - by rewrite filter_app, filter_none, filter_all.
Qed.

Lemma performStorageCleanup_index now s :
  let sorted := js_sort (fun a b => timestamp a - timestamp b) (scrapingIndex s) in
  let evicted := take (length (scrapingIndex s) / 4) sorted in
  scrapingIndex (Storage.performStorageCleanup now s) =
    filter (fun entry => ie_id entry ∉ ie_id <$> evicted) (scrapingIndex s) /\
  forall i, results (Storage.performStorageCleanup now s) !! i =
            if decide (i ∈ ie_id <$> evicted) then None else results s !! i.
Proof.
  intros sorted evicted. unfold Storage.performStorageCleanup.
  rewrite js_sort_length. fold sorted. fold evicted.
  case_bool_decide as Hlen.
  - split; [done|]. intros i. simpl. apply lookup_foldr_delete.
  - assert (evicted = []) as ->.
    { destruct evicted; [done | simpl in Hlen; lia]. }
    split; [|done]. symmetry. apply filter_all. intros x _. csimpl. apply not_elem_of_nil.
Qed.

(** The cleanup removes the oldest quarter of the index. *)
Lemma performStorageCleanup_evicts now s :
  NoDup (ie_id <$> scrapingIndex s) ->
  evicts_oldest_quarter s (Storage.performStorageCleanup now s).
Proof.
  intros Hnd.
  destruct (performStorageCleanup_index now s) as [Hix Hres].
  set (sorted := js_sort (fun a b => timestamp a - timestamp b) (scrapingIndex s)) in *.
  set (k := (length (scrapingIndex s) / 4)%nat) in *.
  assert (sorted ≡ₚ scrapingIndex s) as Hperm by apply js_sort_Permutation.
  assert (NoDup (ie_id <$> take k sorted ++ drop k sorted)) as Hnd'.
  { rewrite take_drop. by rewrite Hperm. }
  rewrite fmap_app in Hnd'. apply NoDup_app in Hnd' as (_ & Hdisj & _).
  exists (take k sorted), (drop k sorted). repeat split.
  - by rewrite take_drop.
  - rewrite length_take_le; [done|].
    rewrite Hperm. apply Nat.Div0.div_le_upper_bound. lia.
  - intros e r He Hr.
    apply (sorted_take_drop_le timestamp sorted k e r); [|done..].
    apply js_sort_sorted.
  - exact Hix.
  - rewrite Hix.
    set (P := fun entry => ie_id entry ∉ ie_id <$> take k sorted).
    transitivity (filter P sorted); [by rewrite Hperm|].
    rewrite (filter_take_drop P sorted k); [done| |].
    + intros x Hx Hnin. apply Hnin. by apply list_elem_of_fmap_2.
    + intros x Hx Hin. apply (Hdisj (ie_id x)); [done|]. by apply list_elem_of_fmap_2.
  - rewrite Hres. rewrite decide_True; [done|]. by apply list_elem_of_fmap_2.
  - rewrite Hix. intros (x & Hid & Hx)%list_elem_of_fmap_1.
    apply list_elem_of_filter in Hx as [Hx _]. apply Hx. rewrite <- Hid.
    by apply list_elem_of_fmap_2.
  - intros i Hi. rewrite Hres. by rewrite decide_False.
Qed.

(** *** The index cap *)

Lemma deleteScrapingSession_fold now (l : list IndexEntry) s i :
  results (foldl (fun s entry => Storage.deleteScrapingSession now (ie_id entry) s) s l) !! i
  = if decide (i ∈ ie_id <$> l) then None else results s !! i.
Proof.
  revert s. induction l as [|e l IH]; intros s; csimpl; [done|].
  rewrite IH. simpl. rewrite lookup_delete.
  repeat case_decide; try done; set_solver.
Qed.

Lemma updateScrapingIndex_cap_spec cap now sessionData s :
  let upserted := Storage.upsertEntry (Storage.indexEntryOf getDataSize sessionData)
                    (scrapingIndex s) in
  let s' := updateScrapingIndex_cap cap now sessionData s in
  scrapingIndex s' = take cap upserted /\
  forall i, results s' !! i =
            if decide (i ∈ ie_id <$> drop cap upserted) then None else results s !! i.
Proof.
  intros upserted s'. subst s'.
  unfold updateScrapingIndex_cap, Storage.updateScrapingIndex_cap. fold upserted.
  case_bool_decide as Hlen; simpl.
  - split; [done|]. intros i. apply deleteScrapingSession_fold.
  - rewrite take_ge, drop_ge by lia. split; [done|]. intros i.
    case_decide as Hin; [|done]. by apply elem_of_nil in Hin.
Qed.

Lemma elem_of_upsertEntry entry index x :
  x ∈ Storage.upsertEntry entry index -> x = entry \/ x ∈ index.
Proof.
  unfold Storage.upsertEntry. case_match.
  - intros (i & Hi)%list_elem_of_lookup_1.
    destruct (decide (i = n)) as [->|Hne].
    + left. apply list_lookup_insert_Some in Hi. naive_solver.
    + right. rewrite list_lookup_insert_ne in Hi by done.
      by eapply list_elem_of_lookup_2.
  - rewrite elem_of_cons. tauto.
Qed.

(** *** Identities stay distinct *)

Lemma upsertEntry_ids_NoDup entry index :
  NoDup (ie_id <$> index) -> NoDup (ie_id <$> Storage.upsertEntry entry index).
Proof.
  intros Hnd. unfold Storage.upsertEntry.
  destruct (findIndex _ index) as [i|] eqn:Hfind.
  - destruct (findIndex_Some _ _ _ Hfind) as (x & Hx & Hid).
    apply bool_decide_eq_true in Hid.
    rewrite list_fmap_insert, list_insert_id; [done|].
    by rewrite list_lookup_fmap, Hx, <- Hid.
  - csimpl. apply NoDup_cons. split; [|done].
    intros (x & Hid & Hin)%list_elem_of_fmap_1.
    pose proof (findIndex_None _ _ x Hfind Hin) as Hno.
    apply bool_decide_eq_false in Hno. by apply Hno.
Qed.

Lemma checkStorageQuota_ids_NoDup now s :
  NoDup (ie_id <$> scrapingIndex s) -> NoDup (ie_id <$> scrapingIndex (checkStorageQuota now s)).
Proof.
  intros Hnd. unfold checkStorageQuota, Storage.checkStorageQuota.
  destruct (Storage.usageHigh getBytesInUse QUOTA_BYTES s); [|done].
  rewrite (proj1 (performStorageCleanup_index now s)).
  apply (sublist_NoDup _ (ie_id <$> scrapingIndex s)); [exact Hnd|].
  apply fmap_sublist, sublist_filter.
Qed.

(** The write path keeps the identities of the index distinct: the
    invariant that the eviction and retention properties assume. *)
Lemma saveScrapingSession_ids_NoDup now sessionData s :
  NoDup (ie_id <$> scrapingIndex s) ->
  NoDup (ie_id <$> scrapingIndex (saveScrapingSession now sessionData s).1).
Proof.
  intros Hnd. unfold saveScrapingSession, Storage.saveScrapingSession,
    Storage.saveScrapingSession_cap, Storage.writeSession_cap. simpl.
  fold updateScrapingIndex_cap checkStorageQuota.
  match goal with
  | |- context [updateScrapingIndex_cap ?c ?n ?d ?x] =>
      rewrite (proj1 (updateScrapingIndex_cap_spec c n d x))
  end.
  apply (sublist_NoDup _ (ie_id <$> Storage.upsertEntry
           (Storage.indexEntryOf getDataSize sessionData)
           (scrapingIndex (checkStorageQuota now s)))).
  - apply upsertEntry_ids_NoDup. by apply checkStorageQuota_ids_NoDup.
  - apply fmap_sublist, sublist_take.
Qed.

(** *** Export *)

(** The export of the storage manager throws on every format other than
    the two it writes. *)
Lemma storage_export_rejects_unsupported stringifySessions stringifyJobs
    convertSessionsToCSV convertJobsToCSV now format filters includeDetails s :
  format <> JUndefined -> format <> JStr "json" -> format <> JStr "csv" ->
  exists message,
    Storage.exportData stringifySessions stringifyJobs convertSessionsToCSV
      convertJobsToCSV now format filters includeDetails s = Thrown message.
Proof.
  intros Hdefault Hjson Hcsv. unfold Storage.exportData.
  destruct format as [| | | |kind]; try done; try by eexists.
  destruct (String.eqb_spec kind "json") as [->|_]; [done|].
  destruct (String.eqb_spec kind "csv") as [->|_]; [done|].
  destruct (String.eqb kind "xlsx"); by eexists.
Qed.

(** *** The claims on the storage engine *)

(** C2.  Every save checks the byte usage before it writes: what is saved is
    the write, index and statistics steps applied to the store that the
    quota check returns.  When usage is above 80% of the quota the check
    evicts exactly [floor (n / 4)] of the [n] indexed sessions, none newer
    than a session that stays: their index entries and session records are
    gone, and stay gone after the write unless the session written has the
    same id.  At or below 80% the check changes nothing. *)
Theorem save_checks_quota_then_evicts now sessionData s :
  0 < QUOTA_BYTES ->
  NoDup (ie_id <$> scrapingIndex s) ->
  let checked := checkStorageQuota now s in
  let saved := (saveScrapingSession now sessionData s).1 in
  saved = writeSession_cap Storage.maxIndexEntries now sessionData
            (optimizeDataForStorage sessionData) checked /\
  (80 * QUOTA_BYTES < 100 * getBytesInUse s ->
     evicts_oldest_quarter s checked /\
     forall e, e ∈ scrapingIndex s -> e ∉ scrapingIndex checked ->
       ie_id e <> id sessionData ->
       results saved !! ie_id e = None /\ ie_id e ∉ ie_id <$> scrapingIndex saved) /\
  (100 * getBytesInUse s <= 80 * QUOTA_BYTES -> checked = s).
Proof.
  intros Hq Hnd checked saved. split; [done|]. split.
  - intros Hhigh. apply usageHigh_spec in Hhigh; [|done].
    assert (checked = Storage.performStorageCleanup now s) as Hchk.
    { subst checked. unfold checkStorageQuota, Storage.checkStorageQuota. by rewrite Hhigh. }
    pose proof (performStorageCleanup_evicts now s Hnd) as Hev.
    rewrite <- Hchk in Hev. split; [exact Hev|].
    destruct Hev as (evicted & kept & _ & _ & _ & Hix & _ & Hgone & _).
    intros e He Hne Hid.
    assert (ie_id e ∈ ie_id <$> evicted) as (x & Hx & Hxin)%list_elem_of_fmap_1.
    { destruct (decide (ie_id e ∈ ie_id <$> evicted)) as [|Hnin]; [done|].
      exfalso. apply Hne. rewrite Hix. by apply list_elem_of_filter. }
    destruct (Hgone x Hxin) as [Hres Hidx]. rewrite <- Hx in Hres, Hidx.
    subst saved. unfold saveScrapingSession, Storage.saveScrapingSession,
      Storage.saveScrapingSession_cap, Storage.writeSession_cap. simpl.
    fold checkStorageQuota optimizeDataForStorage updateScrapingIndex_cap. fold checked.
    set (written := set_results _ checked).
    destruct (updateScrapingIndex_cap_spec Storage.maxIndexEntries now sessionData written)
      as [Hix' Hres'].
    split.
    + rewrite Hres'. case_decide; [done|]. subst written. simpl.
      by rewrite lookup_insert_ne.
    + rewrite Hix'. intros (y & Hy & Hyin)%list_elem_of_fmap_1.
      apply (sublist_subseteq _ _ (sublist_take _ _)) in Hyin.
      apply elem_of_upsertEntry in Hyin as [->|Hyin].
      * by simpl in Hy.
      * apply Hidx. rewrite Hy. subst written. by apply list_elem_of_fmap_2.
  - intros Hlow. subst checked. unfold checkStorageQuota, Storage.checkStorageQuota.
    destruct (Storage.usageHigh getBytesInUse QUOTA_BYTES s) eqn:Hhigh; [|done].
    apply usageHigh_spec in Hhigh; [lia | done].
Qed.

(** C3, as amended.  After an index upsert the index holds at most [cap]
    entries: the first [cap] of the upserted index, in index order.  The
    entries beyond the cap leave the index and their session records are
    deleted; no other session record changes.  What stays is the newest by
    timestamp whenever the upserted index lists sessions newest first. *)
Theorem index_cap_keeps_leading_entries cap now sessionData s :
  let upserted := Storage.upsertEntry (Storage.indexEntryOf getDataSize sessionData)
                    (scrapingIndex s) in
  let s' := updateScrapingIndex_cap cap now sessionData s in
  (length (scrapingIndex s') <= cap)%nat /\
  scrapingIndex s' = take cap upserted /\
  (forall e, e ∈ drop cap upserted -> results s' !! ie_id e = None) /\
  (forall i, i ∉ ie_id <$> drop cap upserted -> results s' !! i = results s !! i) /\
  (newest_first upserted -> retains_newest upserted (scrapingIndex s')).
Proof.
  intros upserted s'.
  destruct (updateScrapingIndex_cap_spec cap now sessionData s) as [Hix Hres].
  fold upserted s' in Hix, Hres. repeat split.
  - rewrite Hix, length_take. lia.
  - exact Hix.
  - intros e He. rewrite Hres, decide_True; [done|]. by apply list_elem_of_fmap_2.
  - intros i Hi. by rewrite Hres, decide_False.
  - intros Hsorted kept gone Hkept Hgone Hnot. rewrite Hix in Hkept, Hnot.
    rewrite <- (take_drop cap upserted) in Hgone.
    apply elem_of_app in Hgone as [Hgone|Hgone]; [done|].
    unfold newest_first in Hsorted. rewrite <- (take_drop cap upserted) in Hsorted.
    exact (StronglySorted_app_1_elem_of _ _ _ _ _ Hsorted Hkept Hgone).
Qed.

(** C4, the code at the failing input.  Four records: [a] and [b] differ in
    id and in URL, [b] occurs twice, [c] is unrelated.  The key of [a] and
    of [b] is the same string, so what is persisted holds [a] and [c] and
    neither occurrence of [b]. *)
Theorem dedup_key_conflates_id_url data :
  let a : Job := {[ "jobId" := JStr "123_x"; "jobUrl" := JStr "y" ]} in
  let b : Job := {[ "jobId" := JStr "123"; "jobUrl" := JStr "x_y" ]} in
  let c : Job := {[ "jobId" := JStr "7"; "jobUrl" := JStr "z" ]} in
  ~ same_id_url a b /\
  Storage.jobKey a = Storage.jobKey b /\
  jobs (optimizeDataForStorage (Storage.with_jobs data (Some [a; b; b; c]))) = Some [a; c].
Proof.
  intros a b c. split; [|split].
  - intros [Hid _]. vm_compute in Hid. discriminate.
  - reflexivity.
  - vm_compute. reflexivity.
Qed.

End storage_facts.

(** *** The storage claims on concrete stores *)

Lemma save_checks_quota_then_evicts_witness :
  evicts_oldest_quarter (storeOf eightSessions)
    (Storage.checkStorageQuota (fun _ => 85) 100 0 (storeOf eightSessions)).
Proof.
  refine (proj1 (proj1 (proj2
    (save_checks_quota_then_evicts (fun _ => None) (fun t => t) (fun t => t)
       (fun _ => 0) (fun _ => 85) 100 0 (sessionAt "i" 90) (storeOf eightSessions) _ _)) _)).
  - lia.
  - by_evaluation.
  - simpl. lia.
Defined.

(** Usage at 85% of the quota with eight indexed sessions: the two oldest,
    [a] and [b], are evicted and the six others keep their index order. *)
Example eight_sessions_evict_two :
  let s := Storage.checkStorageQuota (fun _ => 85) 100 0 (storeOf eightSessions) in
  ie_id <$> scrapingIndex s = ["h"; "c"; "f"; "g"; "d"; "e"] /\
  results s !! "a" = None /\ results s !! "b" = None /\
  results s !! "c" = Some (sessionAt "c" 30).
Proof. vm_compute. repeat split. Qed.

(** Cap 3, five sessions saved in the order they started: the three newest
    stay and the records of the two others are gone. *)
Example cap_three_insert_five :
  let save d s :=
    (Storage.saveScrapingSession_cap (fun _ => None) (fun t => t) (fun t => t)
       (fun _ => 0) (fun _ => 0) 100 3 0 d s).1 in
  let s := foldr save emptyStore
             [sessionAt "e" 5; sessionAt "d" 4; sessionAt "c" 3; sessionAt "b" 2;
              sessionAt "a" 1] in
  ie_id <$> scrapingIndex s = ["e"; "d"; "c"] /\
  results s !! "a" = None /\ results s !! "b" = None /\
  results s !! "c" = Some (sessionAt "c" 3).
Proof. vm_compute. repeat split. Qed.

(** Cap 3 and a full index: a session that started before all three and is
    saved last stays, and the entry trimmed for it, [a], is newer. *)
Example cap_three_trims_a_newer_entry :
  let s := storeOf [sessionAt "c" 30; sessionAt "b" 20; sessionAt "a" 10] in
  let s' := Storage.updateScrapingIndex_cap (fun _ => 0) 3 0 (sessionAt "late" 5) s in
  ((fun entry => (ie_id entry, timestamp entry)) <$> scrapingIndex s')
    = [("late", 5); ("c", 30); ("b", 20)] /\
  results s' !! "a" = None.
Proof. vm_compute. split; reflexivity. Qed.

(** C3, counterexample.  The index is full and newest first; a session that
    started before every indexed one is saved.  Its entry goes to the front
    and stays, and the entry that is trimmed, [s999], is newer. *)
Lemma index_cap_trims_a_newer_entry :
  let s := storeOf fullIndexSessions in
  let upserted :=
    Storage.upsertEntry (Storage.indexEntryOf (fun _ => 0) lateSession) (scrapingIndex s) in
  ~ retains_newest upserted
      (scrapingIndex (Storage.updateScrapingIndex (fun _ => 0) 0 lateSession s)).
Proof.
  intros s upserted Hnewest.
  pose (kept := Storage.indexEntryOf (fun _ => 0) lateSession).
  pose (gone := Storage.indexEntryOf (fun _ => 0) (sessionAt "s999" 1001)).
  assert (timestamp gone <= timestamp kept) as Hle; [|simpl in Hle; lia].
  apply Hnewest; by_evaluation.
Qed.

(** ** Orchestrator *)

Section orchestrator_facts.
Import Background.
Implicit Types (m : Manager) (env : Env) (jobs : list (Z * ScrapeJob)).

(** *** The registry of running jobs *)

Lemma map_has_spec tabId jobs : map_has tabId jobs = true <-> tabId ∈ jobs.*1.
Proof. unfold map_has. apply bool_decide_eq_true. Qed.

Lemma map_has_get tabId jobs : map_has tabId jobs = true <-> is_Some (map_get tabId jobs).
Proof.
  rewrite map_has_spec. induction jobs as [|[k v] jobs IH]; csimpl.
  - rewrite elem_of_nil. split; [done | by intros [? ?]].
  - rewrite elem_of_cons. case_decide as Hk; [subst; naive_solver|].
    rewrite <- IH. naive_solver.
Qed.

Lemma map_has_false_get tabId jobs : map_has tabId jobs = false <-> map_get tabId jobs = None.
Proof.
  rewrite <- not_true_iff_false, map_has_get, <- eq_None_not_Some. done.
Qed.

Lemma map_set_length tabId job jobs :
  length (map_set tabId job jobs) =
  if map_has tabId jobs then length jobs else S (length jobs).
Proof.
  induction jobs as [|[k v] jobs IH]; [done|]. simpl.
  destruct (decide (k = tabId)) as [->|Hne]; simpl.
  - replace (map_has tabId ((tabId, v) :: jobs)) with true; [done|].
    symmetry. apply map_has_spec. left.
  - rewrite IH. destruct (map_has tabId jobs) eqn:Hhas.
    + replace (map_has tabId ((k, v) :: jobs)) with true; [done|].
      symmetry. apply map_has_spec. right. by apply map_has_spec.
    + replace (map_has tabId ((k, v) :: jobs)) with false; [done|].
      symmetry. apply not_true_iff_false. rewrite map_has_spec. csimpl.
      rewrite elem_of_cons. intros [?|Hin]; [congruence|].
      apply map_has_spec in Hin. congruence.
Qed.

Lemma map_set_length_le tabId job jobs :
  (length (map_set tabId job jobs) <= S (length jobs))%nat.
Proof. rewrite map_set_length. destruct (map_has tabId jobs); lia. Qed.

Lemma map_delete_length_le tabId jobs : (length (map_delete tabId jobs) <= length jobs)%nat.
Proof. apply length_filter. Qed.

Lemma map_get_set_eq tabId job jobs : map_get tabId (map_set tabId job jobs) = Some job.
Proof.
  induction jobs as [|[k v] jobs IH]; simpl.
  - by rewrite decide_True.
  - destruct (decide (k = tabId)) as [->|Hne]; simpl.
    + by rewrite decide_True.
    + by rewrite decide_False.
Qed.

Lemma map_get_set_ne k tabId job jobs :
  k <> tabId -> map_get k (map_set tabId job jobs) = map_get k jobs.
Proof.
  intros Hne. induction jobs as [|[k' v] jobs IH]; simpl.
  - by rewrite decide_False.
  - destruct (decide (k' = tabId)) as [->|Hne']; simpl.
    + by rewrite !decide_False.
    + case_decide; [done | exact IH].
Qed.

Lemma map_get_delete_eq tabId jobs : map_get tabId (map_delete tabId jobs) = None.
Proof.
  unfold map_delete. induction jobs as [|[k v] jobs IH]; [done|].
  destruct (decide (k = tabId)) as [->|Hk].
  - by rewrite filter_cons_False by (simpl; tauto).
  - rewrite filter_cons_True by done. simpl. by rewrite decide_False.
Qed.

Lemma map_get_delete_ne k tabId jobs :
  k <> tabId -> map_get k (map_delete tabId jobs) = map_get k jobs.
Proof.
  intros Hne. unfold map_delete. induction jobs as [|[k' v] jobs IH]; [done|].
  destruct (decide (k' = tabId)) as [->|Hk].
  - rewrite filter_cons_False by (simpl; tauto). simpl.
    rewrite decide_False by congruence. exact IH.
  - rewrite filter_cons_True by done. simpl. by rewrite IH.
Qed.

Lemma map_set_keys_NoDup tabId job jobs : NoDup jobs.*1 -> NoDup (map_set tabId job jobs).*1.
Proof.
  induction jobs as [|[k v] jobs IH]; csimpl; intros Hnd.
  - apply NoDup_singleton.
  - apply NoDup_cons in Hnd as [Hk Hnd].
    destruct (decide (k = tabId)) as [->|Hne]; csimpl.
    + by apply NoDup_cons.
    + apply NoDup_cons. split; [|by apply IH].
      intros Hin. apply map_has_spec, map_has_get in Hin.
      rewrite map_get_set_ne in Hin by done.
      by apply map_has_get, map_has_spec in Hin.
Qed.

Lemma map_delete_keys_NoDup tabId jobs : NoDup jobs.*1 -> NoDup (map_delete tabId jobs).*1.
Proof.
  intros Hnd. unfold map_delete.
  apply (sublist_NoDup _ jobs.*1); [exact Hnd|]. apply fmap_sublist, sublist_filter.
Qed.

(** *** What each step leaves alone *)

Lemma updateScrapingHistory_frame job m :
  activeScrapeJobs (updateScrapingHistory job m) = activeScrapeJobs m /\
  scrapingQueue (updateScrapingHistory job m) = scrapingQueue m /\
  maxConcurrentScrapes (updateScrapingHistory job m) = maxConcurrentScrapes m /\
  emitted (updateScrapingHistory job m) = emitted m.
Proof. unfold updateScrapingHistory. repeat case_match; done. Qed.

Lemma startScrapeJob_frame env tabId scrapingParams m :
  let m' := (startScrapeJob env tabId scrapingParams m).1 in
  maxConcurrentScrapes m' = maxConcurrentScrapes m /\
  scrapingQueue m' = scrapingQueue m /\
  (length (activeScrapeJobs m') <= S (length (activeScrapeJobs m)))%nat.
Proof.
  unfold startScrapeJob. destruct (sendMessage env tabId "START_SCRAPING"); simpl.
  - repeat split. etrans; [apply map_delete_length_le | apply map_set_length_le].
  - repeat split. apply map_set_length_le.
Qed.

Lemma map_delete_set_fresh tabId job jobs :
  map_has tabId jobs = false -> map_delete tabId (map_set tabId job jobs) = jobs.
Proof.
  intros Hfresh. unfold map_delete.
  induction jobs as [|[k v] jobs IH]; simpl.
  - by rewrite filter_cons_False by (simpl; tauto).
  - assert (k <> tabId /\ map_has tabId jobs = false) as [Hk Hrest].
    { apply not_true_iff_false in Hfresh. rewrite map_has_spec in Hfresh. csimpl in Hfresh.
      rewrite not_elem_of_cons in Hfresh. destruct Hfresh as [Hk Hrest].
      split; [congruence|]. apply not_true_iff_false. by rewrite map_has_spec. }
    rewrite decide_False by done.
    rewrite filter_cons_True by done. f_equal. by apply IH.
Qed.

(** *** The ceiling is an invariant *)

Lemma startScrapeJob_within C env tabId scrapingParams m :
  maxConcurrentScrapes m = C -> map_size (activeScrapeJobs m) < C ->
  within_ceiling C (startScrapeJob env tabId scrapingParams m).1.
Proof.
  intros HC Hlt. destruct (startScrapeJob_frame env tabId scrapingParams m) as (Hmax & _ & Hlen).
  split; [congruence|]. unfold map_size in *. lia.
Qed.

Lemma handleStartScraping_within C env scrapingParams tabId m :
  within_ceiling C m -> within_ceiling C (handleStartScraping env scrapingParams tabId m).1.
Proof.
  intros [HC Hle]. unfold handleStartScraping.
  destruct (map_has tabId (activeScrapeJobs m)); [done|].
  destruct (Z.leb_spec (maxConcurrentScrapes m) (map_size (activeScrapeJobs m))) as [Hfull|Hfree].
  - done.
  - pose proof (startScrapeJob_within C env tabId scrapingParams m HC ltac:(lia)) as Hw.
    destruct (startScrapeJob env tabId scrapingParams m) as [m' [[]|err]]; exact Hw.
Qed.

Lemma processScrapingQueue_within C env m :
  within_ceiling C m -> within_ceiling C (processScrapingQueue env m).
Proof.
  intros [HC Hle]. unfold processScrapingQueue.
  destruct (scrapingQueue m) as [|queuedJob rest]; [done|].
  destruct (Z.ltb_spec (map_size (activeScrapeJobs m)) (maxConcurrentScrapes m)); [|done].
  apply startScrapeJob_within; simpl; [done | lia].
Qed.

Lemma within_ceiling_shrink C m m' :
  within_ceiling C m ->
  maxConcurrentScrapes m' = maxConcurrentScrapes m ->
  (length (activeScrapeJobs m') <= length (activeScrapeJobs m))%nat ->
  within_ceiling C m'.
Proof. intros [HC Hle] Hmax Hlen. split; [congruence|]. unfold map_size in *. lia. Qed.

Lemma cancelScrapeJob_within C env tabId m :
  within_ceiling C m -> within_ceiling C (cancelScrapeJob env tabId m).
Proof.
  intros Hw. unfold cancelScrapeJob.
  destruct (map_get tabId (activeScrapeJobs m)) as [job|] eqn:Hget; [|done].
  assert (map_has tabId (activeScrapeJobs m) = true) as Hhas
    by (apply map_has_get; by rewrite Hget).
  apply processScrapingQueue_within.
  match goal with
  | |- context [updateScrapingHistory ?j ?x] =>
      destruct (updateScrapingHistory_frame j x) as (Hact & _ & Hmax & _)
  end.
  eapply within_ceiling_shrink; [exact Hw | |]; simpl.
  - rewrite Hmax. by destruct (sendMessage env tabId "STOP_SCRAPING").
  - etrans; [apply map_delete_length_le|]. rewrite Hact.
    destruct (sendMessage env tabId "STOP_SCRAPING"); simpl; by rewrite map_set_length, Hhas.
Qed.

Lemma handleTabRemoved_within C env tabId m :
  within_ceiling C m -> within_ceiling C (handleTabRemoved env tabId m).
Proof.
  intros Hw. unfold handleTabRemoved.
  destruct (map_has tabId (activeScrapeJobs m)); [by apply cancelScrapeJob_within | done].
Qed.

Lemma handleProgressUpdate_within C env progressData tabId m :
  within_ceiling C m -> within_ceiling C (handleProgressUpdate env progressData tabId m).
Proof.
  intros Hw. unfold handleProgressUpdate.
  destruct (map_get tabId (activeScrapeJobs m)) as [job|] eqn:Hget; [|done].
  assert (map_has tabId (activeScrapeJobs m) = true) as Hhas
    by (apply map_has_get; by rewrite Hget).
  destruct (String.eqb (pd_type progressData) "complete").
  - unfold broadcastProgress.
    match goal with
    | |- within_ceiling C (emit _ (processScrapingQueue env ?x)) =>
        assert (within_ceiling C (processScrapingQueue env x)) as [Hmax Hle]; [|done]
    end.
    apply processScrapingQueue_within.
    eapply within_ceiling_shrink; [exact Hw | |]; unfold sendToAPI; simpl.
    + by case_match.
    + etrans; [apply map_delete_length_le|]. by case_match.
  - destruct (String.eqb (pd_type progressData) "error");
      (eapply within_ceiling_shrink; [exact Hw | done |]; simpl;
       by rewrite map_set_length, Hhas).
Qed.

Lemma checkStaleJob_within C currentTime m kv :
  within_ceiling C m -> within_ceiling C (checkStaleJob currentTime m kv).
Proof.
  intros Hw. destruct kv as [tabId job]. unfold checkStaleJob.
  destruct (isStale currentTime job); [|done].
  match goal with
  | |- context [updateScrapingHistory ?j ?x] =>
      destruct (updateScrapingHistory_frame j x) as (Hact & _ & Hmax & _)
  end.
  eapply within_ceiling_shrink; [exact Hw | done |]; simpl.
  etrans; [apply map_delete_length_le|]. by rewrite Hact.
Qed.

Lemma checkStaleJobs_within C env m :
  within_ceiling C m -> within_ceiling C (checkStaleJobs env m).
Proof.
  unfold checkStaleJobs. generalize (activeScrapeJobs m). intros l. revert m.
  induction l as [|kv l IH]; intros m Hw; simpl; [done|].
  by apply IH, checkStaleJob_within.
Qed.

Lemma cleanupOldData_within C env m :
  within_ceiling C m -> within_ceiling C (cleanupOldData env m).
Proof. intros Hw. unfold cleanupOldData. by case_bool_decide. Qed.

Lemma step_within C m ev : within_ceiling C m -> within_ceiling C (step m ev).
Proof.
  intros Hw. destruct ev as [env []]; simpl.
  - by apply handleStartScraping_within.
  - by apply cancelScrapeJob_within.
  - by apply handleProgressUpdate_within.
  - by apply handleTabRemoved_within.
  - unfold deleteScrapedData. by case_match.
  - by apply checkStaleJobs_within.
  - by apply cleanupOldData_within.
Qed.

Lemma run_within C m trace : within_ceiling C m -> within_ceiling C (run m trace).
Proof.
  revert m. induction trace as [|ev trace IH]; intros m Hw; simpl; [done|].
  by apply IH, step_within.
Qed.

Lemma initial_within C cfg : 0 <= C -> within_ceiling C (initial C cfg).
Proof. intros HC. split; [done|]. exact HC. Qed.

(** *** Admission *)

Lemma handleStartScraping_rule env scrapingParams tabId m :
  admission_rule env scrapingParams tabId m.
Proof.
  unfold admission_rule, handleStartScraping.
  destruct (map_has tabId (activeScrapeJobs m)) eqn:Hhas; [done|].
  destruct (Z.leb_spec (maxConcurrentScrapes m) (map_size (activeScrapeJobs m))) as [Hfull|Hfree].
  - rewrite decide_False by lia. simpl. rewrite length_app. simpl.
    by rewrite Nat.add_1_r.
  - rewrite decide_True by lia. unfold startScrapeJob.
    destruct (sendMessage env tabId "START_SCRAPING") as [error|]; simpl.
    + by rewrite map_delete_set_fresh.
    + repeat split.
      * apply map_get_set_eq.
      * unfold map_size. rewrite map_set_length, Hhas. lia.
Qed.

Lemma handleStartScraping_queue env scrapingParams tabId m :
  let result := handleStartScraping env scrapingParams tabId m in
  (scrapingQueue result.1 = scrapingQueue m /\
   forall position, result.2 <> Returned (RQueued position)) \/
  (exists entry, q_tabId entry = tabId /\
     scrapingQueue result.1 = scrapingQueue m ++ [entry] /\
     result.2 = Returned (RQueued (S (length (scrapingQueue m))))).
Proof.
  pose proof (handleStartScraping_rule env scrapingParams tabId m) as Hrule.
  unfold admission_rule in Hrule. simpl.
  destruct (map_has tabId (activeScrapeJobs m)).
  { rewrite Hrule. left. by split. }
  case_decide.
  - destruct (sendMessage env tabId "START_SCRAPING").
    + destruct Hrule as (-> & _ & ->). left. by split.
    + destruct Hrule as (-> & _ & _ & _ & -> & _). left. by split.
  - rewrite Hrule. right. eexists. by repeat split.
Qed.

Lemma submitAll_queue subs m :
  exists added,
    scrapingQueue (submitAll m subs).1 = scrapingQueue m ++ added /\
    queuedAnswers subs (submitAll m subs).2 =
      zip (q_tabId <$> added) (seq (S (length (scrapingQueue m))) (length added)).
Proof.
  revert m. induction subs as [|[[env tabId] scrapingParams] subs IH]; intros m; simpl.
  - exists []. by rewrite app_nil_r.
  - pose proof (handleStartScraping_queue env scrapingParams tabId m) as Hstep.
    destruct (handleStartScraping env scrapingParams tabId m) as [m1 answer]; simpl in Hstep.
    specialize (IH m1). destruct (submitAll m1 subs) as [m2 answers]; simpl in *.
    destruct IH as (added & Hq & Hans).
    destruct Hstep as [[Hsame Hno]|(entry & Htab & Hpush & ->)].
    + exists added. rewrite Hq, Hsame. split; [done|].
      rewrite <- Hsame, <- Hans. unfold queuedAnswers.
      destruct answer as [[]|]; try done. by destruct (Hno position).
    + exists (entry :: added). rewrite Hq, Hpush, <- app_assoc. split; [done|].
      rewrite Hpush, length_app, Nat.add_1_r in Hans.
      unfold queuedAnswers in *. csimpl. by rewrite Hans, Htab.
Qed.

Lemma submitAll_within C subs m :
  within_ceiling C m -> within_ceiling C (submitAll m subs).1.
Proof.
  revert m. induction subs as [|[[env tabId] scrapingParams] subs IH]; intros m Hw; simpl.
  - done.
  - pose proof (handleStartScraping_within C env scrapingParams tabId m Hw) as Hw1.
    destruct (handleStartScraping env scrapingParams tabId m) as [m1 answer].
    specialize (IH m1 Hw1). by destruct (submitAll m1 subs).
Qed.

Lemma map_set_fresh_keys tabId job jobs :
  map_has tabId jobs = false -> (map_set tabId job jobs).*1 = jobs.*1 ++ [tabId].
Proof.
  intros Hfresh. induction jobs as [|[k v] jobs IH]; [done|].
  assert (k <> tabId /\ map_has tabId jobs = false) as [Hk Hrest].
  { apply not_true_iff_false in Hfresh. rewrite map_has_spec in Hfresh. csimpl in Hfresh.
    rewrite not_elem_of_cons in Hfresh. destruct Hfresh as [Hk Hrest].
    split; [congruence|]. apply not_true_iff_false. by rewrite map_has_spec. }
  simpl. rewrite decide_False by done. csimpl. by rewrite IH.
Qed.

(** Submissions from contexts that run nothing, all delivered: the free
    slots go to the first of them and the others wait, in order. *)
Lemma submitAll_fills_then_queues subs m :
  NoDup ((activeScrapeJobs m).*1 ++ contextsOf subs) ->
  allDelivered subs ->
  let m' := (submitAll m subs).1 in
  let free := Z.to_nat (maxConcurrentScrapes m - map_size (activeScrapeJobs m)) in
  (activeScrapeJobs m').*1 = (activeScrapeJobs m).*1 ++ take free (contextsOf subs) /\
  q_tabId <$> scrapingQueue m' = (q_tabId <$> scrapingQueue m) ++ drop free (contextsOf subs).
Proof.
  revert m. induction subs as [|[[env tabId] scrapingParams] subs IH]; intros m Hnd Hsent.
  - simpl. by rewrite take_nil, drop_nil, !app_nil_r.
  - apply Forall_cons in Hsent as [Hsend Hsent]. simpl in Hsend.
    assert (map_has tabId (activeScrapeJobs m) = false) as Hfresh.
    { apply not_true_iff_false. rewrite map_has_spec. intros Hin.
      apply NoDup_app in Hnd as (_ & Hdisj & _). apply (Hdisj tabId Hin). left. }
    cbn [submitAll].
    pose proof (handleStartScraping_rule env scrapingParams tabId m) as Hrule.
    unfold admission_rule in Hrule. rewrite Hfresh, Hsend in Hrule.
    destruct (handleStartScraping env scrapingParams tabId m) as [m1 answer] eqn:Hstep.
    assert (maxConcurrentScrapes m1 = maxConcurrentScrapes m /\
            (activeScrapeJobs m1).*1 =
              (activeScrapeJobs m).*1 ++
                take (Z.to_nat (maxConcurrentScrapes m - map_size (activeScrapeJobs m))) [tabId] /\
            q_tabId <$> scrapingQueue m1 =
              (q_tabId <$> scrapingQueue m) ++
                drop (Z.to_nat (maxConcurrentScrapes m - map_size (activeScrapeJobs m))) [tabId] /\
            map_size (activeScrapeJobs m1) =
              map_size (activeScrapeJobs m) +
                Z.of_nat (length (take (Z.to_nat (maxConcurrentScrapes m
                                                  - map_size (activeScrapeJobs m))) [tabId])))
      as (Hmax & Hkeys & Hqueue & Hsize).
    { unfold handleStartScraping, startScrapeJob in Hstep.
      rewrite Hfresh, Hsend in Hstep. simpl in Hrule.
      destruct (Z.leb_spec (maxConcurrentScrapes m) (map_size (activeScrapeJobs m)))
        as [Hfull|Hfree].
      - injection Hstep as <- <-. simpl.
        replace (Z.to_nat _) with 0%nat by lia. simpl.
        rewrite app_nil_r, fmap_app. repeat split. lia.
      - injection Hstep as <- <-. simpl.
        destruct (Z.to_nat (maxConcurrentScrapes m - map_size (activeScrapeJobs m)))
          as [|free] eqn:Hfree'; [lia|]. simpl.
        rewrite take_nil, drop_nil, app_nil_r, map_set_fresh_keys by done. repeat split.
        unfold map_size. rewrite map_set_length, Hfresh. simpl. lia. }
    specialize (IH m1). destruct (submitAll m1 subs) as [m2 answers] eqn:Hrest.
    simpl in IH |- *.
    destruct IH as [Hkeys2 Hqueue2].
    { rewrite Hkeys. apply NoDup_app in Hnd as (Hnd1 & Hdisj & Hnd2).
      unfold contextsOf in Hnd2, Hdisj. csimpl in Hnd2. csimpl in Hdisj.
      apply NoDup_cons in Hnd2 as [Hnew Hnd2].
      apply NoDup_app. split; [|split; [|exact Hnd2]].
      - apply NoDup_app. split; [done|]. split; [|apply (sublist_NoDup _ [tabId]);
          [apply NoDup_singleton | apply sublist_take]].
        intros x Hx Hx'. apply (sublist_subseteq _ _ (sublist_take _ _)) in Hx'.
        apply list_elem_of_singleton in Hx'. subst x.
        apply (Hdisj tabId Hx). left.
      - intros x Hx Hx'. apply elem_of_app in Hx as [Hx|Hx].
        + apply (Hdisj x Hx). by right.
        + apply (sublist_subseteq _ _ (sublist_take _ _)) in Hx.
          apply list_elem_of_singleton in Hx. by subst x. }
    { done. }
    rewrite Hkeys2, Hqueue2, Hkeys, Hqueue, Hmax, Hsize. unfold contextsOf. csimpl.
    destruct (Z.to_nat (maxConcurrentScrapes m - map_size (activeScrapeJobs m)))
      as [|free] eqn:Hfree'; simpl.
    + replace (map_size (activeScrapeJobs m) + Z.of_nat 0)
        with (map_size (activeScrapeJobs m)) by lia.
      rewrite Hfree'. simpl. by rewrite !app_nil_r, <- app_assoc.
    + rewrite take_nil, drop_nil. simpl length.
      replace (Z.to_nat (maxConcurrentScrapes m
                         - (map_size (activeScrapeJobs m) + Z.of_nat 1)))
        with free by lia.
      by rewrite app_nil_r, <- app_assoc.
Qed.

(** C1.  With ceiling [C]: a submission is rejected when its context has a
    running job; with fewer than [C] running it is registered as running
    and the Agent is signalled (a start signal that cannot be delivered
    withdraws it again); otherwise it is appended to the queue and the
    caller is told its position.  So after any sequence of events at most
    [C] jobs run, and after a sequence of submissions the queue holds
    exactly the submissions that were answered [queued], in submission
    order, at the positions they were told.  When the [N] submissions come
    from [N] contexts and every start signal is delivered, the first [C]
    run and the [N - C] others wait in submission order. *)
Theorem admission_respects_ceiling (C : Z) (cfg : Settings) :
  0 <= C ->
  (forall env scrapingParams tabId m, admission_rule env scrapingParams tabId m) /\
  (forall trace, map_size (activeScrapeJobs (run (initial C cfg) trace)) <= C) /\
  (forall subs,
     let m := (submitAll (initial C cfg) subs).1 in
     let answers := (submitAll (initial C cfg) subs).2 in
     map_size (activeScrapeJobs m) <= C /\
     queuedAnswers subs answers =
       zip (q_tabId <$> scrapingQueue m) (seq 1 (length (scrapingQueue m))) /\
     (NoDup (contextsOf subs) -> allDelivered subs ->
      (activeScrapeJobs m).*1 = take (Z.to_nat C) (contextsOf subs) /\
      q_tabId <$> scrapingQueue m = drop (Z.to_nat C) (contextsOf subs))).
Proof.
  intros HC. split; [|split].
  - apply handleStartScraping_rule.
  - intros trace. by apply (run_within C), initial_within.
  - intros subs m answers. split; [|split].
    + by apply (submitAll_within C), initial_within.
    + destruct (submitAll_queue subs (initial C cfg)) as (added & Hq & Hans).
      subst m answers. simpl in Hq, Hans. by rewrite Hq, Hans.
    + intros Hnd Hsent.
      destruct (submitAll_fills_then_queues subs (initial C cfg)) as [Hkeys Hqueue];
        [done..|].
      subst m. simpl in Hkeys, Hqueue. rewrite Hkeys, Hqueue. unfold map_size. simpl.
      by rewrite Z.sub_0_r.
Qed.

(** *** Draining the queue *)

Lemma map_delete_length_lt tabId jobs :
  map_has tabId jobs = true -> (length (map_delete tabId jobs) < length jobs)%nat.
Proof.
  intros Hhas. apply map_has_spec in Hhas.
  apply list_elem_of_fmap_1 in Hhas as ([k v] & Hk & Hin). simpl in Hk. subst k.
  unfold map_delete. apply (length_filter_lt _ _ (tabId, v)); [done|]. simpl. tauto.
Qed.

Lemma processScrapingQueue_admits_oldest env m q rest :
  scrapingQueue m = q :: rest ->
  map_size (activeScrapeJobs m) < maxConcurrentScrapes m ->
  sendMessage env (q_tabId q) "START_SCRAPING" = None ->
  let m' := processScrapingQueue env m in
  scrapingQueue m' = rest /\
  map_get (q_tabId q) (activeScrapeJobs m')
    = Some (newJob (now env) (q_tabId q) (q_scrapingParams q)).
Proof.
  intros Hq Hfree Hsend. unfold processScrapingQueue. rewrite Hq.
  apply Z.ltb_lt in Hfree. rewrite Hfree. unfold startScrapeJob. rewrite Hsend. simpl.
  split; [done|]. apply map_get_set_eq.
Qed.

(** Cancellation frees a slot and admits the oldest waiting request. *)
Lemma cancel_drains_queue C env tabId m q rest :
  within_ceiling C m ->
  map_has tabId (activeScrapeJobs m) = true ->
  scrapingQueue m = q :: rest ->
  sendMessage env (q_tabId q) "START_SCRAPING" = None ->
  let m' := cancelScrapeJob env tabId m in
  scrapingQueue m' = rest /\
  map_get (q_tabId q) (activeScrapeJobs m')
    = Some (newJob (now env) (q_tabId q) (q_scrapingParams q)).
Proof.
  intros [HC Hle] Hhas Hq Hsend. unfold cancelScrapeJob.
  destruct (map_get tabId (activeScrapeJobs m)) as [job|] eqn:Hget.
  2: { apply map_has_get in Hhas. rewrite Hget in Hhas. by destruct Hhas. }
  match goal with
  | |- context [updateScrapingHistory ?j ?x] =>
      destruct (updateScrapingHistory_frame j x) as (Hact & Hqueue & Hmax & _)
  end.
  apply processScrapingQueue_admits_oldest; simpl; [| |done].
  - rewrite Hqueue. by destruct (sendMessage env tabId "STOP_SCRAPING").
  - rewrite Hmax, Hact.
    match goal with
    | |- map_size (map_delete tabId ?jobs) < _ =>
        assert (length jobs = length (activeScrapeJobs m)) as Hlen
          by (destruct (sendMessage env tabId "STOP_SCRAPING"); simpl;
              by rewrite map_set_length, Hhas);
        assert (map_has tabId jobs = true) as Hhas'
          by (apply map_has_get; destruct (sendMessage env tabId "STOP_SCRAPING"); simpl;
              by rewrite map_get_set_eq);
        pose proof (map_delete_length_lt tabId jobs Hhas') as Hlt
    end.
    unfold map_size in *.
    replace (maxConcurrentScrapes _) with C
      by (by destruct (sendMessage env tabId "STOP_SCRAPING")).
    lia.
Qed.

(** Completion frees a slot and admits the oldest waiting request. *)
Lemma complete_drains_queue C env progressData tabId m q rest :
  within_ceiling C m ->
  map_has tabId (activeScrapeJobs m) = true ->
  pd_type progressData = "complete" ->
  scrapingQueue m = q :: rest ->
  sendMessage env (q_tabId q) "START_SCRAPING" = None ->
  let m' := handleProgressUpdate env progressData tabId m in
  scrapingQueue m' = rest /\
  map_get (q_tabId q) (activeScrapeJobs m')
    = Some (newJob (now env) (q_tabId q) (q_scrapingParams q)).
Proof.
  intros [HC Hle] Hhas Htype Hq Hsend. unfold handleProgressUpdate.
  destruct (map_get tabId (activeScrapeJobs m)) as [job|] eqn:Hget.
  2: { apply map_has_get in Hhas. rewrite Hget in Hhas. by destruct Hhas. }
  rewrite Htype. simpl. unfold broadcastProgress.
  match goal with
  | |- context [processScrapingQueue env ?x] =>
      destruct (processScrapingQueue_admits_oldest env x q rest) as [Hrest Hrun]
  end; simpl; try done.
  - unfold sendToAPI. by case_match.
  - pose proof (map_delete_length_lt tabId (activeScrapeJobs m) Hhas) as Hlt.
    unfold sendToAPI. unfold map_size in *. case_match; simpl; lia.
Qed.

(** After submissions alone, a request waits only while the registry is full. *)
Lemma handleStartScraping_queue_full env scrapingParams tabId m :
  (scrapingQueue m <> [] -> maxConcurrentScrapes m <= map_size (activeScrapeJobs m)) ->
  let m' := (handleStartScraping env scrapingParams tabId m).1 in
  scrapingQueue m' <> [] -> maxConcurrentScrapes m' <= map_size (activeScrapeJobs m').
Proof.
  intros Hinv. pose proof (handleStartScraping_rule env scrapingParams tabId m) as Hrule.
  unfold admission_rule in Hrule. simpl.
  destruct (map_has tabId (activeScrapeJobs m)); [by rewrite Hrule|].
  case_decide as Hfree.
  - assert (scrapingQueue m = []) as Hempty.
    { destruct (scrapingQueue m) eqn:Hq; [done|]. exfalso. specialize (Hinv ltac:(done)). lia. }
    destruct (sendMessage env tabId "START_SCRAPING").
    + destruct Hrule as (_ & _ & ->). by rewrite Hempty.
    + destruct Hrule as (_ & _ & _ & _ & -> & _). by rewrite Hempty.
  - rewrite Hrule. simpl. lia.
Qed.

Lemma submitAll_queue_full subs m :
  (scrapingQueue m <> [] -> maxConcurrentScrapes m <= map_size (activeScrapeJobs m)) ->
  let m' := (submitAll m subs).1 in
  scrapingQueue m' <> [] -> maxConcurrentScrapes m' <= map_size (activeScrapeJobs m').
Proof.
  revert m. induction subs as [|[[env tabId] scrapingParams] subs IH]; intros m Hinv; simpl.
  - done.
  - pose proof (handleStartScraping_queue_full env scrapingParams tabId m Hinv) as Hinv1.
    destruct (handleStartScraping env scrapingParams tabId m) as [m1 answer].
    specialize (IH m1 Hinv1). by destruct (submitAll m1 subs).
Qed.


(** *** The watchdog: the registry *)

Lemma map_get_filter_keys (P : Z -> Prop) `{forall k, Decision (P k)} tabId jobs :
  map_get tabId (filter (fun kv : Z * ScrapeJob => P kv.1) jobs) =
  if decide (P tabId) then map_get tabId jobs else None.
Proof.
  induction jobs as [|[k v] jobs IH].
  - by case_decide.
  - destruct (decide (P k)) as [HP|HP].
    + rewrite filter_cons_True by done. simpl.
      destruct (decide (k = tabId)) as [->|Hne]; [by case_decide | exact IH].
    + rewrite filter_cons_False by done. rewrite IH. simpl.
      destruct (decide (k = tabId)) as [->|Hne]; [by case_decide | done].
Qed.

Lemma map_get_elem_of tabId job jobs :
  NoDup jobs.*1 -> (tabId, job) ∈ jobs <-> map_get tabId jobs = Some job.
Proof.
  induction jobs as [|[k v] jobs IH]; csimpl; intros Hnd.
  - rewrite elem_of_nil. split; [done | discriminate].
  - apply NoDup_cons in Hnd as [Hk Hnd]. rewrite elem_of_cons.
    destruct (decide (k = tabId)) as [->|Hne].
    + split; [|intros [= ->]; by left].
      intros [[= ->]|Hin]; [done|]. exfalso. apply Hk.
      by apply (list_elem_of_fmap_2 fst _ (tabId, job)).
    + rewrite <- (IH Hnd). split; [|tauto]. intros [[= ? ?]|Hin]; [congruence | done].
Qed.

Lemma checkStaleJob_active currentTime m kv :
  activeScrapeJobs (checkStaleJob currentTime m kv) =
  if isStale currentTime kv.2 then map_delete kv.1 (activeScrapeJobs m)
  else activeScrapeJobs m.
Proof.
  destruct kv as [tabId job]. unfold checkStaleJob. simpl.
  destruct (isStale currentTime job); [|done]. simpl.
  match goal with
  | |- context [updateScrapingHistory ?j ?x] =>
      destruct (updateScrapingHistory_frame j x) as (-> & _)
  end. done.
Qed.

Lemma foldl_checkStaleJob_active currentTime l m :
  activeScrapeJobs (foldl (checkStaleJob currentTime) m l) =
  filter (fun kv : Z * ScrapeJob => kv.1 ∉ staleKeys currentTime l) (activeScrapeJobs m).
Proof.
  revert m. induction l as [|[k j] l IH]; intros m; cbn [foldl].
  - symmetry. apply filter_all. intros kv _. apply not_elem_of_nil.
  - rewrite IH, checkStaleJob_active. cbn [fst snd]. unfold staleKeys.
    destruct (isStale currentTime j) eqn:Hst.
    + rewrite filter_cons_True by done. csimpl. unfold map_delete.
      rewrite list_filter_filter. apply list_filter_iff.
      intros kv. rewrite not_elem_of_cons. tauto.
    + rewrite filter_cons_False by (simpl; congruence). done.
Qed.

Lemma checkStaleJobs_registry env m tabId job :
  NoDup (activeScrapeJobs m).*1 ->
  map_get tabId (activeScrapeJobs m) = Some job ->
  map_get tabId (activeScrapeJobs (checkStaleJobs env m)) =
  if isStale (now env) job then None else Some job.
Proof.
  intros Hnd Hget. unfold checkStaleJobs. cbv zeta.
  rewrite foldl_checkStaleJob_active.
  pose proof (map_get_filter_keys
                (fun k => k ∉ staleKeys (now env) (activeScrapeJobs m))
                tabId (activeScrapeJobs m)) as Hfilter.
  cbv beta in Hfilter. rewrite Hfilter. clear Hfilter.
  rewrite Hget. unfold staleKeys.
  destruct (isStale (now env) job) eqn:Hst.
  - rewrite decide_False; [done|]. intros Hnot. apply Hnot.
    apply (list_elem_of_fmap_2 fst _ (tabId, job)).
    apply list_elem_of_filter. split; [done|]. by apply map_get_elem_of.
  - rewrite decide_True; [done|].
    intros ([k j] & Hk & Hin)%list_elem_of_fmap_1. simpl in Hk. subst k.
    apply list_elem_of_filter in Hin as [Hstale Hin]. simpl in Hstale.
    apply map_get_elem_of in Hin; [|done]. congruence.
Qed.

Lemma checkStaleJobs_keys_NoDup env m :
  NoDup (activeScrapeJobs m).*1 -> NoDup (activeScrapeJobs (checkStaleJobs env m)).*1.
Proof.
  intros Hnd. unfold checkStaleJobs. rewrite foldl_checkStaleJob_active.
  apply (sublist_NoDup _ (activeScrapeJobs m).*1); [exact Hnd|].
  apply fmap_sublist, sublist_filter.
Qed.

(** The tick never admits anybody: the queue is as it was. *)
Lemma checkStaleJobs_queue env m :
  scrapingQueue (checkStaleJobs env m) = scrapingQueue m.
Proof.
  unfold checkStaleJobs. generalize (activeScrapeJobs m). intros l. revert m.
  induction l as [|[k j] l IH]; intros m; simpl; [done|].
  rewrite IH. unfold checkStaleJob. destruct (isStale (now env) j); [|done]. simpl.
  match goal with
  | |- context [updateScrapingHistory ?j ?x] =>
      destruct (updateScrapingHistory_frame j x) as (_ & -> & _)
  end. done.
Qed.

(** *** The registry is a map: its keys stay distinct *)

Lemma startScrapeJob_keys_NoDup env tabId scrapingParams m :
  NoDup (activeScrapeJobs m).*1 ->
  NoDup (activeScrapeJobs (startScrapeJob env tabId scrapingParams m).1).*1.
Proof.
  intros Hnd. unfold startScrapeJob. destruct (sendMessage env tabId "START_SCRAPING"); simpl.
  - by apply map_delete_keys_NoDup, map_set_keys_NoDup.
  - by apply map_set_keys_NoDup.
Qed.

Lemma processScrapingQueue_keys_NoDup env m :
  NoDup (activeScrapeJobs m).*1 -> NoDup (activeScrapeJobs (processScrapingQueue env m)).*1.
Proof.
  intros Hnd. unfold processScrapingQueue.
  destruct (scrapingQueue m); [done|]. case_match; [|done].
  by apply startScrapeJob_keys_NoDup.
Qed.

Lemma step_keys_NoDup m ev :
  NoDup (activeScrapeJobs m).*1 -> NoDup (activeScrapeJobs (step m ev)).*1.
Proof.
  intros Hnd. destruct ev as [env []]; simpl.
  - unfold handleStartScraping. case_match; [done|]. case_match; [done|].
    pose proof (startScrapeJob_keys_NoDup env tabId scrapingParams m Hnd) as Hnd'.
    by destruct (startScrapeJob env tabId scrapingParams m) as [m' []].
  - unfold handleStopScraping, cancelScrapeJob. case_match; [|done].
    apply processScrapingQueue_keys_NoDup. simpl.
    match goal with
    | |- context [updateScrapingHistory ?j ?x] =>
        destruct (updateScrapingHistory_frame j x) as (-> & _)
    end.
    apply map_delete_keys_NoDup.
    destruct (sendMessage env tabId "STOP_SCRAPING"); by apply map_set_keys_NoDup.
  - unfold handleProgressUpdate. case_match; [|done]. repeat case_match.
    + unfold broadcastProgress. simpl.
      apply processScrapingQueue_keys_NoDup. simpl. apply map_delete_keys_NoDup.
      unfold sendToAPI. by case_match.
    + by apply map_set_keys_NoDup.
    + by apply map_set_keys_NoDup.
  - unfold handleTabRemoved. case_match; [|done].
    unfold cancelScrapeJob. case_match; [|done].
    apply processScrapingQueue_keys_NoDup. simpl.
    match goal with
    | |- context [updateScrapingHistory ?j ?x] =>
        destruct (updateScrapingHistory_frame j x) as (-> & _)
    end.
    apply map_delete_keys_NoDup.
    destruct (sendMessage env tabId "STOP_SCRAPING"); by apply map_set_keys_NoDup.
  - unfold deleteScrapedData. by case_match.
  - by apply checkStaleJobs_keys_NoDup.
  - unfold cleanupOldData. by case_match.
Qed.

Lemma run_keys_NoDup m trace :
  NoDup (activeScrapeJobs m).*1 -> NoDup (activeScrapeJobs (run m trace)).*1.
Proof.
  revert m. induction trace as [|ev trace IH]; intros m Hnd; simpl; [done|].
  by apply IH, step_keys_NoDup.
Qed.

Lemma reachable_keys_NoDup C cfg trace :
  NoDup (activeScrapeJobs (run (initial C cfg) trace)).*1.
Proof. apply run_keys_NoDup. simpl. apply NoDup_nil_2. Qed.

(** *** A job that never reports *)

Lemma startScrapeJob_other env t scrapingParams tabId m :
  t <> tabId ->
  map_get tabId (activeScrapeJobs (startScrapeJob env t scrapingParams m).1)
    = map_get tabId (activeScrapeJobs m).
Proof.
  intros Hne. unfold startScrapeJob.
  destruct (sendMessage env t "START_SCRAPING"); simpl.
  - by rewrite map_get_delete_ne, map_get_set_ne.
  - by rewrite map_get_set_ne.
Qed.

Lemma processScrapingQueue_other env tabId m :
  tabId ∉ q_tabId <$> scrapingQueue m ->
  map_get tabId (activeScrapeJobs (processScrapingQueue env m))
    = map_get tabId (activeScrapeJobs m) /\
  tabId ∉ q_tabId <$> scrapingQueue (processScrapingQueue env m).
Proof.
  intros Hq. unfold processScrapingQueue.
  destruct (scrapingQueue m) as [|q rest] eqn:Hqueue; [by rewrite Hqueue|].
  csimpl in Hq. apply not_elem_of_cons in Hq as [Hne Hrest].
  case_match; [|by rewrite Hqueue; csimpl; rewrite not_elem_of_cons].
  rewrite startScrapeJob_other by done. split; [done|].
  by rewrite (proj1 (proj2 (startScrapeJob_frame env (q_tabId q) (q_scrapingParams q)
                              (with_queue rest m)))).
Qed.

Lemma cancelScrapeJob_other env t tabId m :
  t <> tabId -> tabId ∉ q_tabId <$> scrapingQueue m ->
  map_get tabId (activeScrapeJobs (cancelScrapeJob env t m))
    = map_get tabId (activeScrapeJobs m) /\
  tabId ∉ q_tabId <$> scrapingQueue (cancelScrapeJob env t m).
Proof.
  intros Hne Hq. unfold cancelScrapeJob.
  destruct (map_get t (activeScrapeJobs m)) as [job|]; [|done].
  match goal with
  | |- context [processScrapingQueue env ?x] =>
      destruct (processScrapingQueue_other env tabId x) as [Hget Hqueue]
  end.
  - simpl.
    match goal with
    | |- context [updateScrapingHistory ?j ?x] =>
        destruct (updateScrapingHistory_frame j x) as (_ & -> & _)
    end.
    by destruct (sendMessage env t "STOP_SCRAPING").
  - split; [|done]. rewrite Hget. simpl.
    match goal with
    | |- context [updateScrapingHistory ?j ?x] =>
        destruct (updateScrapingHistory_frame j x) as (-> & _)
    end.
    rewrite map_get_delete_ne by done.
    destruct (sendMessage env t "STOP_SCRAPING"); simpl; by rewrite map_get_set_ne.
Qed.

Lemma sendToAPI_frame job m :
  activeScrapeJobs (sendToAPI job m) = activeScrapeJobs m /\
  scrapingQueue (sendToAPI job m) = scrapingQueue m.
Proof. unfold sendToAPI. by case_match. Qed.

Lemma handleProgressUpdate_other env progressData t tabId m :
  t <> tabId -> tabId ∉ q_tabId <$> scrapingQueue m ->
  map_get tabId (activeScrapeJobs (handleProgressUpdate env progressData t m))
    = map_get tabId (activeScrapeJobs m) /\
  tabId ∉ q_tabId <$> scrapingQueue (handleProgressUpdate env progressData t m).
Proof.
  intros Hne Hq. unfold handleProgressUpdate.
  destruct (map_get t (activeScrapeJobs m)) as [job|]; [|done].
  destruct (String.eqb (pd_type progressData) "complete").
  - cbv zeta.
    match goal with
    | |- context [sendToAPI ?j _] => generalize j; intros done_job
    end.
    destruct (sendToAPI_frame done_job (saveScrapingResults done_job m)) as [Hact Hqueue].
    remember (sendToAPI done_job (saveScrapingResults done_job m)) as m'.
    simpl in Hact, Hqueue.
    destruct (processScrapingQueue_other env tabId
                (with_active (map_delete t (activeScrapeJobs m')) m')) as [Hget Hqueue'];
      [by simpl; rewrite Hqueue|].
    simpl. split; [|done].
    rewrite Hget. simpl. by rewrite map_get_delete_ne, Hact.
  - destruct (String.eqb (pd_type progressData) "error"); simpl;
      by rewrite map_get_set_ne.
Qed.

Lemma handleStartScraping_other env scrapingParams t tabId m :
  t <> tabId -> tabId ∉ q_tabId <$> scrapingQueue m ->
  map_get tabId (activeScrapeJobs (handleStartScraping env scrapingParams t m).1)
    = map_get tabId (activeScrapeJobs m) /\
  tabId ∉ q_tabId <$> scrapingQueue (handleStartScraping env scrapingParams t m).1.
Proof.
  intros Hne Hq. unfold handleStartScraping.
  case_match; [done|]. case_match.
  - simpl. split; [done|]. rewrite fmap_app, not_elem_of_app. split; [done|].
    csimpl. rewrite not_elem_of_cons. split; [congruence | apply not_elem_of_nil].
  - pose proof (startScrapeJob_other env t scrapingParams tabId m Hne) as Hget.
    pose proof (proj1 (proj2 (startScrapeJob_frame env t scrapingParams m))) as Hqueue.
    simpl in Hqueue.
    destruct (startScrapeJob env t scrapingParams m) as [m' []]; simpl in *;
      by rewrite Hqueue.
Qed.

(** An event from another context, or a periodic task, leaves a job that has
    never reported where it is. *)
Lemma step_keeps_silent_job tabId job m ev :
  concerns tabId ev.2 = false ->
  lastUpdate job = None ->
  NoDup (activeScrapeJobs m).*1 ->
  map_get tabId (activeScrapeJobs m) = Some job ->
  tabId ∉ q_tabId <$> scrapingQueue m ->
  map_get tabId (activeScrapeJobs (step m ev)) = Some job /\
  tabId ∉ q_tabId <$> scrapingQueue (step m ev).
Proof.
  intros Hother Hsilent Hnd Hget Hq. destruct ev as [env e]. simpl in Hother.
  destruct e as [t p|t|t pd|t|filters| |]; unfold step;
    try (apply bool_decide_eq_false in Hother).
  - destruct (handleStartScraping_other env p t tabId m Hother Hq) as [-> ?]. done.
  - unfold handleStopScraping.
    destruct (cancelScrapeJob_other env t tabId m Hother Hq) as [-> ?]. done.
  - destruct (handleProgressUpdate_other env pd t tabId m Hother Hq) as [-> ?]. done.
  - unfold handleTabRemoved. case_match; [|done].
    destruct (cancelScrapeJob_other env t tabId m Hother Hq) as [-> ?]. done.
  - unfold deleteScrapedData. by case_match.
  - rewrite (checkStaleJobs_registry env m tabId job Hnd Hget), checkStaleJobs_queue.
    unfold isStale. by rewrite Hsilent.
  - unfold cleanupOldData. by case_match.
Qed.

(** C7, the code on a job that never reports.  A job is admitted and no
    progress event from its context ever arrives: its [lastUpdate] stays
    absent, the comparison of the watchdog is never true for it, and after
    any number of watchdog ticks, at any times, and whatever the other
    contexts do, it is still in the registry. *)
Theorem job_without_progress_is_never_timed_out C cfg env0 scrapingParams tabId
    (trace : list (Env * Event)) :
  0 < C -> sendMessage env0 tabId "START_SCRAPING" = None ->
  Forall (fun ev => concerns tabId ev.2 = false) trace ->
  let m := (handleStartScraping env0 scrapingParams tabId (initial C cfg)).1 in
  let job := newJob (now env0) tabId scrapingParams in
  map_get tabId (activeScrapeJobs m) = Some job /\
  lastUpdate job = None /\
  map_get tabId (activeScrapeJobs (run m trace)) = Some job.
Proof.
  intros HC Hsend Hothers m job.
  assert (activeScrapeJobs m = [(tabId, job)] /\ scrapingQueue m = []) as [Hact Hqueue].
  { subst m. unfold handleStartScraping, startScrapeJob. simpl. rewrite Hsend.
    by replace (C <=? map_size []) with false by (symmetry; apply Z.leb_gt; exact HC). }
  assert (map_get tabId (activeScrapeJobs m) = Some job) as Hget.
  { rewrite Hact. simpl. by rewrite decide_True. }
  assert (NoDup (activeScrapeJobs m).*1) as Hnd.
  { rewrite Hact. apply NoDup_singleton. }
  assert (tabId ∉ q_tabId <$> scrapingQueue m) as Hq.
  { rewrite Hqueue. apply not_elem_of_nil. }
  split; [done|]. split; [done|].
  clear Hact Hqueue. revert Hget Hnd Hq. generalize m. clear m.
  induction Hothers as [|ev trace Hev Hrest IH]; intros m Hget Hnd Hq; simpl; [done|].
  destruct (step_keeps_silent_job tabId job m ev Hev eq_refl Hnd Hget Hq) as [Hget' Hq'].
  apply IH; [done | | done].
  - by apply step_keys_NoDup.
Qed.


(** *** The watchdog: the history *)









(** C9, the code on an unsupported format.  [exportData] of the manager
    throws inside its own [try]; the [catch] only logs, no download is
    issued, and the dispatcher answers [success]. *)
Theorem unsupported_export_is_answered_with_success stringify convertToCSV
    env format filters tabId m :
  format <> JStr "json" -> format <> JStr "csv" ->
  exportFile stringify convertToCSV env format (getScrapedData filters m)
    = Thrown "Unsupported export format" /\
  handleMessage stringify convertToCSV env (EXPORT_DATA format filters) tabId m
    = (m, RSuccess).
Proof.
  intros Hjson Hcsv.
  assert (exportFile stringify convertToCSV env format (getScrapedData filters m)
          = Thrown "Unsupported export format") as Hthrow.
  { unfold exportFile. destruct format as [| | | |kind]; try done.
    destruct (String.eqb_spec kind "json") as [->|_]; [done|].
    destruct (String.eqb_spec kind "csv") as [->|_]; [done|]. done. }
  split; [done|]. simpl. unfold exportData. by rewrite Hthrow.
Qed.

End orchestrator_facts.

(** *** The orchestrator claims on concrete runs *)

Section orchestrator_runs.
Import Background.

Lemma admission_respects_ceiling_witness :
  0 <= 2 /\
  map_size (activeScrapeJobs (run (initial 2 noSettings) twoRunningTwoQueued)) <= 2.
Proof.
  split; [lia|].
  apply (proj1 (proj2 (admission_respects_ceiling 2 noSettings ltac:(lia)))).
Defined.

(** C5, the code at the failing input.  Ceiling 2, jobs 1 and 2 run, 3 and
    4 wait.  The tick at minute 49 times job 1 out: a slot is free, and the
    queue is exactly as it was. *)
Theorem watchdog_timeout_admits_nobody :
  let m := run (initial 2 noSettings) twoRunningTwoQueued in
  let freed := checkStaleJobs (quietEnv (minutes 49)) m in
  (activeScrapeJobs m).*1 = [1; 2] /\ q_tabId <$> scrapingQueue m = [3; 4] /\
  (activeScrapeJobs freed).*1 = [2] /\ q_tabId <$> scrapingQueue freed = [3; 4] /\
  map_size (activeScrapeJobs freed) < maxConcurrentScrapes freed.
Proof. vm_compute. repeat split. Qed.

(** The sibling paths: when job 1 completes, or is cancelled, the oldest
    waiting request, 3, is admitted and 4 still waits. *)
Example completion_admits_oldest :
  let m := run (initial 2 noSettings) twoRunningTwoQueued in
  let freed := handleProgressUpdate (quietEnv (minutes 21)) completeUpdate 1 m in
  (activeScrapeJobs freed).*1 = [2; 3] /\ q_tabId <$> scrapingQueue freed = [4].
Proof. vm_compute. split; reflexivity. Qed.

Example cancellation_admits_oldest :
  let m := run (initial 2 noSettings) twoRunningTwoQueued in
  let freed := cancelScrapeJob (quietEnv (minutes 21)) 1 m in
  (activeScrapeJobs freed).*1 = [2; 3] /\ q_tabId <$> scrapingQueue freed = [4].
Proof. vm_compute. split; reflexivity. Qed.

(** Ceiling 1 and a job running for another context: the submission is
    queued at position 1, and runs as soon as that job completes. *)
Example queued_then_admitted_on_completion :
  let m := run (initial 1 noSettings) [(quietEnv 0, Submit 7 someParams)] in
  let result := handleStartScraping (quietEnv 1) someParams 8 m in
  let freed := handleProgressUpdate (quietEnv 2) completeUpdate 7 result.1 in
  result.2 = Returned (RQueued 1) /\
  (activeScrapeJobs freed).*1 = [8] /\ scrapingQueue freed = [] /\
  job_status <$> map_get 8 (activeScrapeJobs freed) = Some "running".
Proof. vm_compute. repeat split. Qed.


(** The same without any deletion: fifty later jobs push the entry of job 1
    out of the history, which keeps the 50 most recent starts. *)
Example stale_job_pushed_out_of_history :
  let m := run (initial 2 noSettings) fiftyShortJobs in
  let after := checkStaleJobs (quietEnv (minutes 31)) m in
  (activeScrapeJobs m).*1 = [1] /\
  activeScrapeJobs after = [] /\
  local after = local m /\
  Forall (fun entry => he_id entry <> "job_0_1") (scrapingHistory (local after)).
Proof.
  intros m after. split; [vm_compute; reflexivity|]. split; [vm_compute; reflexivity|].
  split; [vm_compute; reflexivity|]. by_evaluation.
Qed.


Lemma job_without_progress_is_never_timed_out_witness :
  let others :=
    [ (quietEnv (minutes 31), WatchdogTick);
      (quietEnv (minutes 40), Submit 2 someParams);
      (quietEnv (minutes 600), WatchdogTick) ] in
  0 < 1 /\ sendMessage (quietEnv 0) 1 "START_SCRAPING" = None /\
  is_Some (map_get 1 (activeScrapeJobs
    (run (handleStartScraping (quietEnv 0) someParams 1 (initial 1 noSettings)).1 others))).
Proof.
  intros others. split; [lia|]. split; [reflexivity|]. eexists.
  apply (job_without_progress_is_never_timed_out 1 noSettings (quietEnv 0) someParams 1
           others); [lia | reflexivity |].
  repeat constructor.
Defined.


Lemma unsupported_export_is_answered_with_success_witness :
  JStr "xlsx" <> JStr "json" /\ JStr "xlsx" <> JStr "csv" /\
  handleMessage (fun _ => "[]") (fun _ => "") (quietEnv 0)
    (EXPORT_DATA (JStr "xlsx") {| accepts := fun _ => true; limit := None; all := false |}) 1
    (initial 2 noSettings)
  = (initial 2 noSettings, RSuccess).
Proof.
  split; [discriminate|]. split; [discriminate|].
  apply (unsupported_export_is_answered_with_success (fun _ => "[]") (fun _ => "")
           (quietEnv 0) (JStr "xlsx")); discriminate.
Defined.


End orchestrator_runs.

(** * Further properties of the code *)

(** ** Storage engine: records, pages and CSV *)

Section storage_records.
Import StorageReports.

(** The lemmas on deduplication do not depend on the platform functions. *)
Local Notation "'on_any_platform' lemma" :=
  (lemma (fun _ : JsVal => @None string) (fun text : string => text)
     (fun text : string => text) (fun _ : SessionData => 0) (fun _ : LocalStore => 0) 0)
  (at level 10, lemma at level 9, only parsing).

(** *** Deleting sessions *)

Lemma getScrapingSession_results sessionId s s' :
  results s' !! sessionId = results s !! sessionId ->
  Storage.getScrapingSession sessionId s' = Storage.getScrapingSession sessionId s.
Proof. intros Heq. unfold Storage.getScrapingSession. by rewrite Heq. Qed.

(** X1.  Deleting a session removes its record and its index entry and nothing
    else: reading it back gives nothing, every other session reads as
    before, and the other index entries keep their order. *)
Theorem deleted_session_is_gone now sessionId s :
  let s' := Storage.deleteScrapingSession now sessionId s in
  Storage.getScrapingSession sessionId s' = None /\
  sessionId ∉ ie_id <$> scrapingIndex s' /\
  (forall other, other <> sessionId ->
     Storage.getScrapingSession other s' = Storage.getScrapingSession other s) /\
  scrapingIndex s' = filter (fun entry => ie_id entry <> sessionId) (scrapingIndex s) /\
  scrapingHistory s' = scrapingHistory s.
Proof.
  intros s'. repeat split.
  - unfold Storage.getScrapingSession. subst s'. simpl. by rewrite lookup_delete_eq.
  - subst s'. simpl. intros (entry & Hid & Hin)%list_elem_of_fmap_1.
    apply list_elem_of_filter in Hin as [Hne _]. by apply Hne.
  - intros other Hne. apply getScrapingSession_results. subst s'. simpl.
    by rewrite lookup_delete_ne.
Qed.

Lemma foldr_delete_snoc (m : gmap string SessionData) ids i :
  foldr delete m (ids ++ [i]) = delete i (foldr delete m ids).
Proof.
  apply map_eq. intros k.
  rewrite lookup_delete, !lookup_foldr_delete.
  repeat case_decide; try done; set_solver.
Qed.

Lemma filter_filter_ids (index : list IndexEntry) ids i :
  filter (fun entry => ie_id entry <> i) (filter (fun entry => ie_id entry ∉ ids) index)
  = filter (fun entry => ie_id entry ∉ ids ++ [i]) index.
Proof.
  induction index as [|e index IH]; [done|].
  destruct (decide (ie_id e ∈ ids)) as [Hin|Hnin].
  - rewrite (filter_cons_False (fun entry => ie_id entry ∉ ids)) by tauto.
    rewrite (filter_cons_False (fun entry => ie_id entry ∉ ids ++ [i])) by set_solver.
    exact IH.
  - rewrite (filter_cons_True (fun entry => ie_id entry ∉ ids)) by done.
    destruct (decide (ie_id e = i)) as [Heq|Hne].
    + rewrite (filter_cons_False (fun entry => ie_id entry <> i)) by tauto.
      rewrite (filter_cons_False (fun entry => ie_id entry ∉ ids ++ [i])) by set_solver.
      exact IH.
    + rewrite (filter_cons_True (fun entry => ie_id entry <> i)) by done.
      rewrite (filter_cons_True (fun entry => ie_id entry ∉ ids ++ [i])) by set_solver.
      by rewrite IH.
Qed.

(** X2.  Deleting several sessions at once leaves the store that deleting them
    one after the other leaves. *)
Theorem delete_multiple_is_repeated_delete now sessionIds s :
  sessionIds <> [] ->
  Storage.deleteMultipleSessions now sessionIds s =
  foldl (fun s sessionId => Storage.deleteScrapingSession now sessionId s) s sessionIds.
Proof.
  induction sessionIds as [|i ids IH] using rev_ind; [done|]. intros _.
  rewrite foldl_app. cbn [foldl].
  destruct ids as [|j ids'] using rev_ind.
  - clear IH. simpl. unfold Storage.deleteMultipleSessions, Storage.deleteScrapingSession.
    simpl.
    rewrite (list_filter_iff (fun entry => ie_id entry ∉ [i]) (fun entry => ie_id entry <> i));
      [done|]. intros entry. set_solver.
  - clear IHids'. rewrite <- IH by (by destruct ids').
    set (ids := ids' ++ [j]).
    unfold Storage.deleteMultipleSessions, Storage.deleteScrapingSession,
      Storage.updateStorageStats, Storage.calculateStorageStats, remove_results. simpl.
    rewrite foldr_delete_snoc, filter_filter_ids. done.
Qed.

(** *** Deduplication, again *)

Lemma deduplicateJobs_from_id seen jobs :
  NoDup (Storage.jobKey <$> jobs) ->
  (forall key, key ∈ Storage.jobKey <$> jobs -> key ∉ seen) ->
  Storage.deduplicateJobs_from seen jobs = jobs.
Proof.
  revert seen. induction jobs as [|job rest IH]; intros seen Hnd Hseen; csimpl; [done|].
  csimpl in Hnd. apply NoDup_cons in Hnd as [Hjob Hnd].
  rewrite decide_False by (apply Hseen; csimpl; left).
  f_equal. apply IH; [done|].
  intros key Hkey. specialize (Hseen key). csimpl in Hseen.
  rewrite elem_of_cons in Hseen. set_solver.
Qed.

Lemma deduplicateJobs_from_length seen jobs :
  length (Storage.deduplicateJobs_from seen jobs) = length jobs ->
  Storage.deduplicateJobs_from seen jobs = jobs.
Proof.
  revert seen. induction jobs as [|job rest IH]; intros seen; simpl; [done|].
  case_decide.
  - pose proof (sublist_length _ _ (deduplicateJobs_from_sublist seen rest)). lia.
  - simpl. intros [= Hlen]. f_equal. by apply IH.
Qed.


(** *** Pages *)

Lemma length_omap_le {A B} (f : A -> option B) (l : list A) :
  (length (omap f l) <= length l)%nat.
Proof. induction l as [|x l IH]; csimpl; [done|]. destruct (f x); simpl; lia. Qed.

(** X4.  The sessions of a page are at most [limit]; the page that starts at its
    [nextOffset] continues it, so that the two together are the page of
    both sizes; and when [hasMore] is false nothing follows. *)
Theorem next_page_continues_the_page limit more offset filters s :
  let page := getScrapingSessionsPage limit offset filters s in
  let following := Storage.getScrapingSessions more (nextOffset page) filters s in
  (length (sessions page) <= limit)%nat /\
  sessions page ++ following = Storage.getScrapingSessions (limit + more) offset filters s /\
  (total page <= length (scrapingIndex s))%nat /\
  (hasMore page = false -> following = []).
Proof.
  intros page following. subst page following.
  unfold getScrapingSessionsPage. cbn [sessions total hasMore nextOffset].
  unfold Storage.getScrapingSessions.
  set (index := js_sort _ (Storage.applyFilters filters (scrapingIndex s))).
  split; [|split; [|split]].
  - etrans; [apply length_omap_le|]. rewrite length_take. lia.
  - rewrite <- omap_app. f_equal.
    rewrite <- (take_take_drop (drop offset index) limit more). f_equal.
    by rewrite drop_drop.
  - subst index. rewrite js_sort_length. apply List.filter_length_le.
  - intros Hlast. apply bool_decide_eq_false in Hlast.
    by rewrite drop_ge, take_nil by lia.
Qed.

(** *** CSV *)

Lemma append_cons (x : Ascii.ascii) (a b : string) : String x a +:+ b = String x (a +:+ b).
Proof. reflexivity. Qed.

Lemma append_nil_l (b : string) : "" +:+ b = b.
Proof. reflexivity. Qed.

Lemma append_assoc (a b c : string) : (a +:+ b) +:+ c = a +:+ (b +:+ c).
Proof. induction a as [|x a IH]; [done|]. by rewrite !append_cons, IH. Qed.

Lemma append_nil_r (a : string) : a +:+ "" = a.
Proof. induction a as [|x a IH]; [done|]. by rewrite append_cons, IH. Qed.

Lemma append_prefix_inj (p a b : string) : p +:+ a = p +:+ b -> a = b.
Proof.
  induction p as [|x p IH]; [done|]. rewrite !append_cons. intros [= H]. by apply IH.
Qed.

(** A doubled-quote text is delimited by the first quote that is not
    followed by a second one. *)
Lemma doubleQuotes_delimited x y r1 r2 :
  ~ starts_with_quote r1 -> ~ starts_with_quote r2 ->
  doubleQuotes x +:+ String quoteChar r1 = doubleQuotes y +:+ String quoteChar r2 ->
  x = y /\ r1 = r2.
Proof.
  intros Hr1 Hr2. revert y. induction x as [|c x IH]; intros [|d y]; simpl;
    rewrite ?append_nil_l.
  - by intros [= ->].
  - destruct (Ascii.eqb_spec d quoteChar) as [->|Hd]; rewrite !append_cons.
    + intros [= ->]. destruct Hr1. by eexists.
    + intros [= <-]. done.
  - destruct (Ascii.eqb_spec c quoteChar) as [->|Hc]; rewrite !append_cons.
    + intros [= <-]. destruct Hr2. by eexists.
    + intros [= ->]. done.
  - destruct (Ascii.eqb_spec c quoteChar) as [->|Hc],
             (Ascii.eqb_spec d quoteChar) as [->|Hd]; rewrite !append_cons.
    + intros [= H]. by destruct (IH _ H) as [-> ->].
    + intros [= <-]. done.
    + intros [= ->]. done.
    + intros [= -> H]. by destruct (IH _ H) as [-> ->].
Qed.

Lemma quoted_append text r :
  quoted text +:+ r = String quoteChar (doubleQuotes text +:+ String quoteChar r).
Proof. unfold quoted, inQuotes. by rewrite append_cons, append_assoc, append_cons. Qed.

Lemma row_end_no_quote r : row_end r -> ~ starts_with_quote r.
Proof. intros [->|[r' ->]] [q Hq]; discriminate. Qed.

Lemma concat_cons (sep x : string) xs r :
  String.concat sep (x :: xs) +:+ r =
  x +:+ (match xs with [] => r | _ => sep +:+ (String.concat sep xs +:+ r) end).
Proof. destruct xs; [done|]. cbn [String.concat]. by rewrite !append_assoc. Qed.

Lemma quoted_row_inj xs ys r1 r2 :
  xs <> [] -> ys <> [] -> row_end r1 -> row_end r2 ->
  String.concat "," (quoted <$> xs) +:+ r1 = String.concat "," (quoted <$> ys) +:+ r2 ->
  xs = ys /\ r1 = r2.
Proof.
  intros Hxs Hys Hr1 Hr2. revert ys Hxs Hys.
  induction xs as [|x xs IH]; intros [|y ys] Hx Hy; try done. clear Hx Hy.
  rewrite !fmap_cons, !concat_cons, !quoted_append. intros [= H].
  apply doubleQuotes_delimited in H as [-> H].
  - destruct xs as [|x' xs], ys as [|y' ys]; csimpl in H.
    + by subst.
    + destruct Hr1 as [->|[r' ->]]; discriminate.
    + destruct Hr2 as [->|[r' ->]]; discriminate.
    + injection H as H. destruct (IH (y' :: ys)) as [Heq ->]; [done..|]. by rewrite Heq.
  - destruct xs; [by apply row_end_no_quote|]. intros [q Hq]. discriminate.
  - destruct ys; [by apply row_end_no_quote|]. intros [q Hq]. discriminate.
Qed.

Lemma quoted_rows_inj (rows1 rows2 : list (list string)) :
  Forall (fun row => row <> []) rows1 -> Forall (fun row => row <> []) rows2 ->
  rows1 <> [] -> rows2 <> [] ->
  String.concat (String newlineChar "")
    ((fun row => String.concat "," (quoted <$> row)) <$> rows1) =
  String.concat (String newlineChar "")
    ((fun row => String.concat "," (quoted <$> row)) <$> rows2) ->
  rows1 = rows2.
Proof.
  intros Hne1. revert rows2. induction Hne1 as [|row1 rows1 Hrow1 Hne1 IH];
    intros rows2 Hne2; [done|].
  destruct Hne2 as [|row2 rows2 Hrow2 Hne2]; [done|]. intros _ _.
  rewrite !fmap_cons. intros H.
  apply (f_equal (fun text => text +:+ "")) in H. rewrite !concat_cons in H.
  apply quoted_row_inj in H as [-> H]; [|done|done|..].
  - destruct rows1 as [|row1' rows1], rows2 as [|row2' rows2]; csimpl in H; try done.
    rewrite !append_cons, !append_nil_l in H.
    injection H as H. rewrite !append_nil_r in H.
    f_equal. apply IH; [done|done|done|]. exact H.
  - destruct rows1; [by left | right; by eexists].
  - destruct rows2; [by left | right; by eexists].
Qed.

Lemma csvRow_quoted headers job :
  csvRow headers job = String.concat "," (quoted <$> (cellText job <$> headers)).
Proof. unfold csvRow. f_equal. by rewrite <- list_fmap_compose. Qed.

Lemma csv_body headers (jobs : list Job) :
  String.concat (String newlineChar "") (csvRow headers <$> jobs) =
  String.concat (String newlineChar "")
    ((fun row => String.concat "," (quoted <$> row)) <$>
       ((fun job => cellText job <$> headers) <$> jobs)).
Proof.
  f_equal. rewrite <- list_fmap_compose. apply list_fmap_ext.
  intros i job _. apply csvRow_quoted.
Qed.

Lemma session_header_line :
  String.concat "," (jobHeaders ++ sessionHeaders) =
  String.concat "," jobHeaders +:+ ",sessionId,searchParams,sessionDate".
Proof. reflexivity. Qed.

Lemma convertJobsToCSV_text job jobs :
  convertJobsToCSV (job :: jobs) =
  String.concat "," jobHeaders +:+
    ((if truthy (prop job "sessionId") then ",sessionId,searchParams,sessionDate" else "")
     +:+ String newlineChar
           (String.concat (String newlineChar "")
              (csvRow (csvHeaders (job :: jobs)) <$> job :: jobs))).
Proof.
  unfold convertJobsToCSV. cbv zeta.
  rewrite <- (append_nil_r (String.concat (String newlineChar "") _)).
  rewrite concat_cons, append_nil_r. rewrite fmap_cons. unfold csvHeaders at 1.
  destruct (truthy (prop job "sessionId")).
  - by rewrite session_header_line, append_assoc.
  - by rewrite append_nil_l.
Qed.

(** X5.  The CSV text determines the table: two lists of records are written to
    the same text only when they have the same number of rows and columns
    and show the same text in every cell.  Quotes, commas and line breaks
    inside a value cannot move a cell border. *)
Theorem csv_text_determines_the_table a b :
  convertJobsToCSV a = convertJobsToCSV b -> csvTable a = csvTable b.
Proof.
  destruct a as [|job1 a], b as [|job2 b]; [done|..].
  - rewrite convertJobsToCSV_text. discriminate.
  - rewrite convertJobsToCSV_text. discriminate.
  - rewrite !convertJobsToCSV_text. intros H%append_prefix_inj.
    assert (csvHeaders (job1 :: a) = csvHeaders (job2 :: b) /\
            String.concat (String newlineChar "")
              (csvRow (csvHeaders (job1 :: a)) <$> job1 :: a) =
            String.concat (String newlineChar "")
              (csvRow (csvHeaders (job2 :: b)) <$> job2 :: b)) as [Hh Hbody].
    { unfold csvHeaders in *.
      destruct (truthy (prop job1 "sessionId")), (truthy (prop job2 "sessionId")).
      - apply append_prefix_inj in H. by injection H.
      - rewrite !append_cons, !append_nil_l in H. discriminate H.
      - rewrite !append_cons, !append_nil_l in H. discriminate H.
      - rewrite !append_nil_l in H. by injection H. }
    rewrite !csv_body in Hbody. unfold csvTable. rewrite <- Hh in Hbody |- *.
    apply quoted_rows_inj in Hbody; [by rewrite Hh in Hbody |- * | | |done|done].
    all: apply Forall_fmap, Forall_forall; intros job _; unfold csvHeaders;
      case_match; done.
Qed.

End storage_records.

(** ** Storage engine: the write path *)

Section storage_contracts.
Variable parseDate : JsVal -> option string.
Variable trim : string -> string.
Variable collapseWhitespace : string -> string.
Variable getDataSize : SessionData -> Z.
Variable getBytesInUse : LocalStore -> Z.
Variable QUOTA_BYTES : Z.

Local Notation "'on_platform' lemma" :=
  (lemma parseDate trim collapseWhitespace getDataSize getBytesInUse QUOTA_BYTES)
  (at level 10, lemma at level 9, only parsing).

Let optimizeDataForStorage := Storage.optimizeDataForStorage parseDate trim collapseWhitespace.
Let checkStorageQuota := Storage.checkStorageQuota getBytesInUse QUOTA_BYTES.
Let saveScrapingSession :=
  Storage.saveScrapingSession parseDate trim collapseWhitespace getDataSize
    getBytesInUse QUOTA_BYTES.
Let compressJob := Storage.compressJob trim collapseWhitespace.
Let compressText := Storage.compressText trim collapseWhitespace.

(** *** Quota *)

(** X6.  With fewer than four indexed sessions the quota cleanup removes
    nothing, however full the store is. *)
Theorem quota_cleanup_spares_a_small_index now s :
  (length (scrapingIndex s) < 4)%nat ->
  Storage.performStorageCleanup now s = s /\
  Storage.checkStorageQuota getBytesInUse QUOTA_BYTES now s = s.
Proof.
  intros Hlen.
  assert (Storage.performStorageCleanup now s = s) as Hclean.
  { unfold Storage.performStorageCleanup. rewrite js_sort_length.
    rewrite Nat.div_small by done. by rewrite take_0. }
  split; [done|]. unfold Storage.checkStorageQuota. by case_match.
Qed.

(** *** Cleaning *)

Lemma standardizeField_lookup field cleaned k :
  Storage.standardizeField parseDate field cleaned !! k =
    if decide (k = field) then
      (fun v => if truthy v && negb (bool_decide (v = JStr "N/A"))
                then Storage.standardizeDate parseDate v else v) <$> cleaned !! k
    else cleaned !! k.
Proof.
  unfold Storage.standardizeField, prop.
  case_decide as Hk.
  - subst k. destruct (cleaned !! field) as [v|] eqn:Hv; simpl.
    + case_match; [by rewrite lookup_insert_eq | done].
    + done.
  - case_match; [by rewrite lookup_insert_ne | done].
Qed.

Lemma trimField_lookup cleaned field k :
  Storage.trimField trim cleaned field !! k =
    if decide (k = field) then
      (fun v => match v with JStr s => JStr (trim s) | _ => v end) <$> cleaned !! k
    else cleaned !! k.
Proof.
  unfold Storage.trimField. case_decide as Hk.
  - subst k. destruct (cleaned !! field) as [[]|] eqn:Hv; simpl; try by rewrite Hv.
    by rewrite lookup_insert_eq.
  - destruct (cleaned !! field) as [[]|]; try done. by rewrite lookup_insert_ne.
Qed.

Lemma foldl_trimField_lookup fields cleaned k :
  foldl (Storage.trimField trim) cleaned fields !! k = None <-> cleaned !! k = None.
Proof.
  revert cleaned. induction fields as [|f fields IH]; intros cleaned; simpl; [done|].
  rewrite IH, trimField_lookup. case_decide; [|done].
  apply fmap_None.
Qed.

Lemma foldl_trimField_not_nullish fields cleaned :
  (forall k v, cleaned !! k = Some v -> not_nullish v) ->
  forall k v, foldl (Storage.trimField trim) cleaned fields !! k = Some v -> not_nullish v.
Proof.
  revert cleaned. induction fields as [|f fields IH]; intros cleaned Hall; simpl; [done|].
  apply IH. intros k v. rewrite trimField_lookup. case_decide; [|apply Hall].
  intros (v0 & Hv0 & ->)%fmap_Some. specialize (Hall _ _ Hv0).
  by destruct v0.
Qed.

Lemma foldl_trimField_other fields cleaned k :
  k ∉ fields -> foldl (Storage.trimField trim) cleaned fields !! k = cleaned !! k.
Proof.
  revert cleaned. induction fields as [|f fields IH]; intros cleaned Hk; simpl; [done|].
  apply not_elem_of_cons in Hk as [Hne Hk].
  rewrite IH by done. rewrite trimField_lookup. by rewrite decide_False.
Qed.

(** X7.  Cleaning a record keeps its property names and leaves no property
    [null] or [undefined]; a property that is neither a date nor a text
    field keeps its value, or becomes ['N/A'] when it was [null],
    [undefined] or the empty string. *)
Theorem cleaned_record_has_no_null job :
  let cleaned := Storage.cleanJobData parseDate trim job in
  dom cleaned = dom job /\
  (forall k v, cleaned !! k = Some v -> v <> JNull /\ v <> JUndefined) /\
  (forall k, k ∉ ["listingDate"; "datePosted"] ++ Storage.textFields ->
     cleaned !! k = (fun v => if Storage.isBlank v then JStr "N/A" else v) <$> job !! k).
Proof.
  intros cleaned. subst cleaned. unfold Storage.cleanJobData.
  set (blanked := (fun v => if Storage.isBlank v then JStr "N/A" else v) <$> job).
  split; [|split].
  - apply set_eq. intros k. rewrite !elem_of_dom, <- !not_eq_None_Some.
    rewrite foldl_trimField_lookup, !standardizeField_lookup.
    subst blanked. repeat case_decide; rewrite ?fmap_None, lookup_fmap, fmap_None; done.
  - apply foldl_trimField_not_nullish. intros k v.
    assert (forall k v, blanked !! k = Some v -> not_nullish v) as Hblank.
    { intros k' v'. subst blanked. rewrite lookup_fmap.
      intros (v0 & _ & ->)%fmap_Some. by destruct v0 as [| | | |[]]. }
    assert (forall v, not_nullish v ->
              not_nullish (if truthy v && negb (bool_decide (v = JStr "N/A"))
                           then Storage.standardizeDate parseDate v else v)) as Hdate.
    { intros v0 Hv0. case_match; [|done]. unfold Storage.standardizeDate.
      by destruct (parseDate v0). }
    rewrite !standardizeField_lookup.
    repeat case_decide; subst;
      try (intros (v0 & Hv0 & ->)%fmap_Some; apply Hdate; revert Hv0);
      rewrite ?standardizeField_lookup, ?decide_False by done;
      try (intros (v1 & Hv1 & ->)%fmap_Some; apply Hdate; revert Hv1);
      apply Hblank.
  - intros k Hk. rewrite foldl_trimField_other by set_solver.
    rewrite !standardizeField_lookup, !decide_False by set_solver. subst blanked.
    by rewrite lookup_fmap.
Qed.

(** *** Compression *)

(** X8.  What a reader gets for a record that was stored.  A description of at
    most 1024 characters comes back as it was.  A longer one comes back
    with its whitespace collapsed, not as it was, and without the
    [_compressed] mark; when it collapses to the empty string the mark is
    not removed. *)
Theorem stored_description_is_not_restored job :
  job !! "_compressed" = None ->
  let read := Storage.decompressJob (compressJob job) in
  match job !! "jobDescription" with
  | Some (JStr d) =>
      if decide (1024 < Z.of_nat (String.length d)) then
        if decide (compressText d = "") then
          read = <["_compressed" := JBool true]> (<["jobDescription" := JStr ""]> job)
        else read = <["jobDescription" := JStr (compressText d)]> job
      else read = job
  | _ => read = job
  end.
Proof.
  intros Hmark read. subst read compressJob compressText.
  assert (Storage.decompressJob job = job) as Hplain.
  { unfold Storage.decompressJob, prop. by rewrite Hmark. }
  unfold Storage.compressJob.
  destruct (job !! "jobDescription") as [[| | | |d]|] eqn:Hd; try done.
  case_decide as Hlong.
  - assert (d <> "") as Hne by (intros ->; simpl in Hlong; lia).
    apply String.eqb_neq in Hne. rewrite Hne. apply Z.ltb_lt in Hlong.
    unfold Storage.compressionThreshold. rewrite Hlong. simpl.
    unfold Storage.decompressJob, prop.
    rewrite lookup_insert_eq, lookup_insert_ne, lookup_insert_eq by done. simpl.
    case_decide as Hblank.
    + rewrite Hblank. done.
    + apply String.eqb_neq in Hblank. rewrite Hblank. simpl.
      unfold Storage.decompressText.
      rewrite (insert_insert_ne _ "jobDescription" "_compressed"), insert_insert_eq by done.
      rewrite delete_insert_eq. apply delete_id. by rewrite lookup_insert_ne.
  - replace (Storage.compressionThreshold <? Z.of_nat (String.length d)) with false.
    + by rewrite andb_false_r.
    + symmetry. apply Z.ltb_ge. unfold Storage.compressionThreshold. lia.
Qed.

(** *** Saving and reading back *)

Lemma checkStorageQuota_length now s :
  (length (scrapingIndex (checkStorageQuota now s)) <= length (scrapingIndex s))%nat.
Proof.
  unfold checkStorageQuota, Storage.checkStorageQuota. case_match; [|done].
  rewrite (proj1 (performStorageCleanup_index now s)). apply length_filter.
Qed.

(** The entry of the session that is saved stays within the cap. *)
Lemma upsertEntry_within_cap (entry : IndexEntry) index :
  (length index <= Storage.maxIndexEntries)%nat ->
  let upserted := Storage.upsertEntry entry index in
  entry ∈ take Storage.maxIndexEntries upserted /\
  ie_id entry ∉ ie_id <$> drop Storage.maxIndexEntries upserted.
Proof.
  intros Hlen upserted. subst upserted. unfold Storage.upsertEntry.
  destruct (findIndex _ index) as [i|] eqn:Hfind.
  - destruct (findIndex_Some _ _ _ Hfind) as (x & Hx & _).
    rewrite take_ge, drop_ge by (rewrite length_insert; lia). split.
    + apply list_elem_of_lookup. exists i. apply list_lookup_insert_eq.
      by eapply lookup_lt_Some.
    + csimpl. apply not_elem_of_nil.
  - split; [left|].
    intros (x & Hid & Hin)%list_elem_of_fmap_1.
    change (drop Storage.maxIndexEntries (entry :: index))
      with (drop (pred Storage.maxIndexEntries) index) in Hin.
    apply (sublist_subseteq _ _ (sublist_drop _ _)) in Hin.
    pose proof (findIndex_None _ _ x Hfind Hin) as Hno.
    apply bool_decide_eq_false in Hno. by apply Hno.
Qed.

Lemma saved_record now sessionData s :
  (length (scrapingIndex s) <= Storage.maxIndexEntries)%nat ->
  let saved := (saveScrapingSession now sessionData s).1 in
  results saved !! id sessionData = Some (optimizeDataForStorage sessionData) /\
  Storage.indexEntryOf getDataSize sessionData ∈ scrapingIndex saved /\
  (length (scrapingIndex saved) <= Storage.maxIndexEntries)%nat.
Proof.
  intros Hlen saved. subst saved.
  unfold saveScrapingSession, Storage.saveScrapingSession,
    Storage.saveScrapingSession_cap, Storage.writeSession_cap. simpl.
  fold checkStorageQuota optimizeDataForStorage.
  set (written := set_results _ (checkStorageQuota now s)).
  destruct (on_platform updateScrapingIndex_cap_spec Storage.maxIndexEntries now
              sessionData written) as [Hix Hres].
  destruct (upsertEntry_within_cap (Storage.indexEntryOf getDataSize sessionData)
              (scrapingIndex written)) as [Hin Hout].
  { subst written. simpl. etrans; [apply checkStorageQuota_length | done]. }
  rewrite Hix, Hres. split; [|split].
  - rewrite decide_False by exact Hout. subst written. simpl. apply lookup_insert_eq.
  - exact Hin.
  - rewrite length_take. lia.
Qed.

(** X9.  A session that is saved while the index is within its cap can be read
    back: the record under its id is the optimised session, its index entry
    is in the index, and the index is within its cap again. *)
Theorem saved_session_reads_back now sessionData s :
  (length (scrapingIndex s) <= Storage.maxIndexEntries)%nat ->
  let saved := (saveScrapingSession now sessionData s).1 in
  let optimized := optimizeDataForStorage sessionData in
  Storage.getScrapingSession (id sessionData) saved =
    Some (Storage.with_jobs optimized
            (option_map (map Storage.decompressJob) (jobs optimized))) /\
  Storage.indexEntryOf getDataSize sessionData ∈ scrapingIndex saved /\
  (length (scrapingIndex saved) <= Storage.maxIndexEntries)%nat.
Proof.
  intros Hlen saved optimized.
  destruct (saved_record now sessionData s Hlen) as (Hrec & Hin & Hcap).
  split; [|by split]. unfold Storage.getScrapingSession. fold saved in Hrec.
  by rewrite Hrec.
Qed.

(** X10.  The job count of the index entry is the number of records handed in;
    the record that is stored holds no more than that, and as many exactly
    when the keys of the cleaned records are pairwise distinct. *)
Theorem index_counts_records_before_dedup now sessionData s js :
  (length (scrapingIndex s) <= Storage.maxIndexEntries)%nat ->
  jobs sessionData = Some js ->
  let saved := (saveScrapingSession now sessionData s).1 in
  exists entry stored kept,
    entry ∈ scrapingIndex saved /\ ie_id entry = id sessionData /\
    jobCount entry = Some (Z.of_nat (length js)) /\
    results saved !! id sessionData = Some stored /\ jobs stored = Some kept /\
    (length kept <= length js)%nat /\
    (length kept = length js <->
     NoDup (Storage.jobKey <$> (Storage.cleanJobData parseDate trim <$> js))).
Proof.
  intros Hlen Hjs saved.
  destruct (saved_record now sessionData s Hlen) as (Hrec & Hin & _).
  exists (Storage.indexEntryOf getDataSize sessionData), (optimizeDataForStorage sessionData).
  eexists. split; [exact Hin|]. split; [done|]. split.
  { simpl. by rewrite Hjs. }
  split; [exact Hrec|].
  unfold optimizeDataForStorage, Storage.optimizeDataForStorage. rewrite Hjs. simpl.
  split; [done|]. rewrite length_fmap.
  set (cleaned := Storage.cleanJobData parseDate trim <$> js).
  replace (length js) with (length cleaned) by (subst cleaned; apply length_fmap).
  split.
  - apply sublist_length, deduplicateJobs_from_sublist.
  - split.
    + intros Heq. apply deduplicateJobs_from_length in Heq. rewrite <- Heq.
      apply (on_platform deduplicateJobs_NoDup).
    + intros Hnd. unfold Storage.deduplicateJobs.
      rewrite deduplicateJobs_from_id; [done | done | set_solver].
Qed.

(** *** Saving again *)

Lemma findIndex_insert {A} (p : A -> bool) (l : list A) i x :
  findIndex p l = Some i -> p x = true -> findIndex p (<[i := x]> l) = Some i.
Proof.
  revert i. induction l as [|y l IH]; intros i; simpl; [done|].
  destruct (p y) eqn:Hy.
  - intros [= <-] Hx. simpl. by rewrite Hx.
  - destruct (findIndex p l) as [j|] eqn:Hj; [|done]. simpl. intros [= <-] Hx.
    simpl. rewrite Hy. by rewrite (IH j).
Qed.

(** Upserting the entry that was upserted last changes nothing. *)
Lemma upsertEntry_again (entry : IndexEntry) index :
  (length index <= Storage.maxIndexEntries)%nat ->
  let kept := take Storage.maxIndexEntries (Storage.upsertEntry entry index) in
  Storage.upsertEntry entry kept = kept.
Proof.
  intros Hlen kept. subst kept. unfold Storage.upsertEntry at 2 3.
  destruct (findIndex _ index) as [i|] eqn:Hfind.
  - rewrite take_ge by (rewrite length_insert; lia).
    unfold Storage.upsertEntry.
    rewrite (findIndex_insert _ _ _ _ Hfind) by (by apply bool_decide_eq_true).
    apply list_insert_insert_eq.
  - change (take Storage.maxIndexEntries (entry :: index))
      with (entry :: take (pred Storage.maxIndexEntries) index).
    unfold Storage.upsertEntry. simpl. by rewrite bool_decide_eq_true_2.
Qed.

(** X11.  Saving a session a second time, while the store is not above the
    quota mark, changes neither the index nor any session record: the
    entry is replaced in place, not added again. *)
Theorem saving_again_changes_nothing now later sessionData s :
  (length (scrapingIndex s) <= Storage.maxIndexEntries)%nat ->
  let saved := (saveScrapingSession now sessionData s).1 in
  Storage.usageHigh getBytesInUse QUOTA_BYTES saved = false ->
  let again := (saveScrapingSession later sessionData saved).1 in
  scrapingIndex again = scrapingIndex saved /\ results again = results saved.
Proof.
  intros Hlen saved Hlow again.
  destruct (saved_record now sessionData s Hlen) as (Hrec & Hin & Hcap).
  fold saved in Hrec, Hin, Hcap.
  assert (scrapingIndex saved =
          take Storage.maxIndexEntries
            (Storage.upsertEntry (Storage.indexEntryOf getDataSize sessionData)
               (scrapingIndex (checkStorageQuota now s)))) as Hix1.
  { subst saved. unfold saveScrapingSession, Storage.saveScrapingSession,
      Storage.saveScrapingSession_cap, Storage.writeSession_cap. simpl.
    fold checkStorageQuota optimizeDataForStorage.
    match goal with
    | |- context [Storage.updateScrapingIndex_cap _ ?c ?n ?d ?x] =>
        rewrite (proj1 (on_platform updateScrapingIndex_cap_spec c n d x))
    end.
    done. }
  assert (Storage.upsertEntry (Storage.indexEntryOf getDataSize sessionData)
            (scrapingIndex saved) = scrapingIndex saved) as Hup.
  { rewrite Hix1. apply upsertEntry_again.
    etrans; [apply checkStorageQuota_length | done]. }
  clear Hix1. clearbody saved.
  subst again. unfold saveScrapingSession, Storage.saveScrapingSession,
    Storage.saveScrapingSession_cap, Storage.writeSession_cap. simpl.
  unfold Storage.checkStorageQuota. rewrite Hlow.
  fold optimizeDataForStorage.
  set (written := set_results _ saved).
  destruct (on_platform updateScrapingIndex_cap_spec Storage.maxIndexEntries later
              sessionData written) as [Hix Hres].
  assert (scrapingIndex written = scrapingIndex saved) as Hw by done.
  rewrite Hw, Hup in Hix, Hres.
  rewrite take_ge in Hix by done. rewrite drop_ge in Hres by done.
  split; [exact Hix|].
  apply map_eq. intros i. rewrite Hres.
  rewrite decide_False by (csimpl; apply not_elem_of_nil). subst written. simpl.
  destruct (decide (i = id sessionData)) as [->|Hne].
  - by rewrite lookup_insert_eq, Hrec.
  - by rewrite lookup_insert_ne.
Qed.

(** *** Statistics *)

Lemma foldl_add_foldr (f : IndexEntry -> Z) (index : list IndexEntry) acc :
  foldl (fun acc entry => acc + f entry) acc index = acc + foldr Z.add 0 (f <$> index).
Proof.
  revert acc. induction index as [|e index IH]; intros acc; csimpl; [lia|].
  rewrite IH. lia.
Qed.

Lemma calculateStorageStats_matches now s :
  let s' := Storage.calculateStorageStats now s in
  scrapingIndex s' = scrapingIndex s /\ results s' = results s /\
  scrapingHistory s' = scrapingHistory s /\
  exists stats, storageStats s' = Some stats /\ lastCalculated stats = now /\
                statsMatchIndex stats (scrapingIndex s).
Proof.
  simpl. repeat split. eexists. split; [done|]. split; [done|].
  repeat split; simpl; by rewrite foldl_add_foldr.
Qed.

(** Whatever the age of the stored statistics, what [getStorageStats]
    returns after a store was written by [calculateStorageStats] describes
    the index of that store; the index and the records are not touched, and
    within the hour nothing is written at all. *)
Lemma getStorageStats_current now later s stats :
  storageStats s = Some stats -> lastCalculated stats = now ->
  statsMatchIndex stats (scrapingIndex s) ->
  let answer := StorageReports.getStorageStats later s in
  statsMatchIndex answer.2 (scrapingIndex s) /\
  scrapingIndex answer.1 = scrapingIndex s /\ results answer.1 = results s /\
  (later - now <= StorageReports.ageLimit -> answer = (s, stats)).
Proof.
  intros Hstats Hnow Hmatch answer. subst answer. unfold StorageReports.getStorageStats.
  rewrite Hstats. simpl. rewrite Hnow.
  destruct (Z.ltb_spec StorageReports.ageLimit (later - now)) as [Hold|Hfresh].
  - simpl. split; [|split; [done|split; [done|lia]]].
    repeat split; simpl; by rewrite foldl_add_foldr.
  - simpl. by split.
Qed.

Lemma statsAreCurrent_after_calculate now later s :
  statsAreCurrent now later (Storage.calculateStorageStats now s).
Proof.
  destruct (calculateStorageStats_matches now s) as (Hix & _ & _ & stats & Hstats & Hnow & Hm).
  rewrite <- Hix in Hm.
  destruct (getStorageStats_current now later _ stats Hstats Hnow Hm) as (H1 & H2 & H3 & H4).
  unfold statsAreCurrent. split; [done|]. split; [done|]. split; [done|].
  intros Hage. rewrite (H4 Hage). by split.
Qed.

(** X12.  Every write through the storage manager refreshes the statistics, so
    whenever they are read afterwards, from the cache within the hour or
    recalculated later, they describe the index that the write left. *)
Theorem statistics_follow_every_write now later sessionData sessionId sessionIds s :
  statsAreCurrent now later (saveScrapingSession now sessionData s).1 /\
  statsAreCurrent now later (Storage.deleteScrapingSession now sessionId s) /\
  statsAreCurrent now later (Storage.deleteMultipleSessions now sessionIds s).
Proof. split; [|split]; apply statsAreCurrent_after_calculate. Qed.

End storage_contracts.

(** ** Content script *)

Section content_facts.
Import Content.

Lemma set_has_spec v s : set_has v s = true <-> v ∈ s.
Proof. apply bool_decide_eq_true. Qed.

Lemma set_add_fresh v s : set_has v s = false -> set_add v s = s ++ [v].
Proof. intros H. unfold set_add. by rewrite H. Qed.

(** The loop over the cards of a page, from any state of the set and of
    the list. *)
Lemma extractJobListings_from_spec processed jobs jobElements :
  exists added,
    extractJobListings_from processed jobs jobElements
      = (processed ++ (listedId <$> added), jobs ++ added) /\
    NoDup (listedId <$> added) /\
    (forall v, v ∈ listedId <$> added -> v ∉ processed) /\
    sublist added (omap returned jobElements) /\
    (forall pre job post, jobElements = pre ++ Returned job :: post ->
       listedId job ∉ processed ->
       (forall earlier, Returned earlier ∈ pre -> listedId earlier <> listedId job) ->
       job ∈ added).
Proof.
  revert processed jobs.
  induction jobElements as [|[jobData|message] rest IH]; intros processed jobs; simpl.
  - exists []. rewrite !app_nil_r. repeat split; try constructor.
    + intros v Hv. by apply elem_of_nil in Hv.
    + intros pre job post Heq. by destruct pre.
  - fold (listedId jobData).
    destruct (set_has (listedId jobData) processed) eqn:Hhas.
    + destruct (IH processed jobs) as (added & Heq & Hnd & Hnew & Hsub & Hfirst).
      exists added. split; [done|]. split; [done|]. split; [done|].
      split; [by apply sublist_cons|].
      intros pre job post Hsplit Hfresh Hpre. destruct pre as [|e pre]; simplify_eq/=.
      * apply set_has_spec in Hhas. done.
      * apply (Hfirst pre job post); [done..|].
        intros earlier Hin. apply Hpre. by right.
    + apply not_true_iff_false in Hhas. rewrite set_has_spec in Hhas.
      rewrite set_add_fresh by (apply not_true_iff_false; by rewrite set_has_spec).
      destruct (IH (processed ++ [listedId jobData]) (jobs ++ [jobData]))
        as (added & Heq & Hnd & Hnew & Hsub & Hfirst).
      exists (jobData :: added). rewrite Heq, <- !app_assoc. split; [done|].
      split; [|split; [|split]].
      * csimpl. apply NoDup_cons. split; [|done].
        intros Hin. apply (Hnew _ Hin). set_solver.
      * intros v. csimpl. rewrite elem_of_cons. intros [->|Hin]; [done|].
        specialize (Hnew _ Hin). set_solver.
      * by apply sublist_skip.
      * intros pre job post Hsplit Hfresh Hpre. destruct pre as [|e pre]; simplify_eq/=.
        -- left.
        -- right. apply (Hfirst pre job post); [done| |].
           ++ rewrite not_elem_of_app, list_elem_of_singleton. split; [done|].
              intros Heq'. apply (Hpre jobData); [left | done].
           ++ intros earlier Hin. apply Hpre. by right.
  - destruct (IH processed jobs) as (added & Heq & Hnd & Hnew & Hsub & Hfirst).
    exists added. split; [done|]. split; [done|]. split; [done|]. split; [done|].
    intros pre job post Hsplit Hfresh Hpre. destruct pre as [|e pre]; simplify_eq/=.
    apply (Hfirst pre job post); [done..|].
    intros earlier Hin. apply Hpre. by right.
Qed.

Lemma extractJobListings_from_app processed jobs elements1 elements2 :
  extractJobListings_from processed jobs (elements1 ++ elements2) =
  extractJobListings_from (extractJobListings_from processed jobs elements1).1
    (extractJobListings_from processed jobs elements1).2 elements2.
Proof.
  revert processed jobs. induction elements1 as [|[jobData|message] rest IH];
    intros processed jobs; simpl; [done| |apply IH].
  case_match; apply IH.
Qed.

(** The list that the loop is given only grows. *)
Lemma extractJobListings_from_acc processed jobs jobElements :
  extractJobListings_from processed jobs jobElements =
  ((extractJobListings_from processed [] jobElements).1,
   jobs ++ (extractJobListings_from processed [] jobElements).2).
Proof.
  revert processed jobs. induction jobElements as [|[jobData|message] rest IH];
    intros processed jobs; simpl.
  - by rewrite app_nil_r.
  - case_match; [apply IH|].
    rewrite (IH _ (jobs ++ [jobData])), (IH _ [jobData]). simpl.
    by rewrite <- app_assoc.
  - apply IH.
Qed.

Lemma foldl_scrapePage scraper pages :
  foldl scrapePage scraper pages =
  {| extractedJobs :=
       (extractJobListings_from (processedJobIds scraper) (extractedJobs scraper)
          (concat pages)).2;
     processedJobIds :=
       (extractJobListings_from (processedJobIds scraper) (extractedJobs scraper)
          (concat pages)).1 |}.
Proof.
  revert scraper. induction pages as [|page pages IH]; intros scraper; simpl.
  - by destruct scraper.
  - rewrite IH, extractJobListings_from_app.
    unfold scrapePage, extractJobListings.
    rewrite (extractJobListings_from_acc _ (extractedJobs scraper) page).
    by destruct (extractJobListings_from (processedJobIds scraper) [] page).
Qed.

(** Page borders do not matter: the listing pass over the pages is the
    loop over all their cards, from an empty set and an empty list. *)
Lemma scrapeListings_single_pass pages :
  scrapeListings pages =
  {| extractedJobs := (extractJobListings_from [] [] (concat pages)).2;
     processedJobIds := (extractJobListings_from [] [] (concat pages)).1 |}.
Proof. apply foldl_scrapePage. Qed.

(** X13.  The listing pass keeps one record for every job id, the first that it
    extracts with this id on any page: the job ids of the listings are
    pairwise distinct, the listings are extracted records in the order of
    their extraction, and the first record with an id is among them. *)
Theorem listings_have_distinct_job_ids pages :
  let listings := extractedJobs (scrapeListings pages) in
  NoDup (listedId <$> listings) /\
  sublist listings (omap returned (concat pages)) /\
  (forall pre job post, concat pages = pre ++ Returned job :: post ->
     (forall earlier, Returned earlier ∈ pre -> listedId earlier <> listedId job) ->
     job ∈ listings).
Proof.
  intros listings. subst listings. rewrite scrapeListings_single_pass. simpl.
  destruct (extractJobListings_from_spec [] [] (concat pages))
    as (added & -> & Hnd & _ & Hsub & Hfirst).
  simpl. split; [done|]. split; [done|].
  intros pre job post Hsplit Hpre. apply (Hfirst pre job post); [done| |done].
  apply not_elem_of_nil.
Qed.

End content_facts.

(** ** Helpers *)

Section helper_facts.
Import Helpers.

Lemma includesChar_head c str :
  includesChar c (String c str) = true.
Proof. simpl. by rewrite Ascii.eqb_refl. Qed.

Lemma inQuotes_inj a b : inQuotes (doubleQuotes a) = inQuotes (doubleQuotes b) -> a = b.
Proof.
  unfold inQuotes. intros [= H].
  apply doubleQuotes_delimited in H as [-> _]; [done|..]; intros [r Hr]; discriminate.
Qed.

(** X14.  [escapeCSV] loses nothing of a string: two strings that are written
    the same are the same string, whether they are quoted or not. *)
Theorem escapeCSV_is_injective_on_strings (a b : string) :
  escapeCSV (JStr a) = escapeCSV (JStr b) -> a = b.
Proof.
  unfold escapeCSV. cbn [toString].
  destruct (includesChar commaChar a || includesChar quoteChar a
            || includesChar newlineChar a) eqn:Ha,
           (includesChar commaChar b || includesChar quoteChar b
            || includesChar newlineChar b) eqn:Hb.
  - apply inQuotes_inj.
  - intros <-. unfold inQuotes in Hb. rewrite includesChar_head in Hb.
    by rewrite orb_true_r in Hb.
  - intros ->. unfold inQuotes in Ha. rewrite includesChar_head in Ha.
    by rewrite orb_true_r in Ha.
  - done.
Qed.

(** *** Durations *)

(** X15.  For an end that is not before the start the duration shown is the
    whole minutes and, below a minute, the whole seconds of the difference,
    both rounded down. *)
Theorem duration_is_rounded_down startTime endTime :
  startTime <= endTime ->
  let minutes := durationMinutes startTime endTime in
  let seconds := durationSeconds startTime endTime in
  calculateDuration startTime endTime = pretty minutes +:+ "m " +:+ pretty seconds +:+ "s" /\
  0 <= minutes /\ 0 <= seconds < 60 /\
  60000 * minutes + 1000 * seconds <= endTime - startTime
    < 60000 * minutes + 1000 * seconds + 1000.
Proof.
  intros Hle minutes seconds. split; [done|].
  subst minutes seconds. unfold durationMinutes, durationSeconds.
  set (d := endTime - startTime). assert (0 <= d) as Hd by lia.
  rewrite Z.rem_mod_nonneg by lia.
  pose proof (Z.div_mod d 60000 ltac:(lia)) as Hm.
  pose proof (Z.mod_pos_bound d 60000 ltac:(lia)) as Hr.
  pose proof (Z.div_mod (d mod 60000) 1000 ltac:(lia)) as Hs.
  pose proof (Z.mod_pos_bound (d mod 60000) 1000 ltac:(lia)) as Hr'.
  assert (0 <= d / 60000) by (apply Z.div_pos; lia).
  assert (0 <= d mod 60000 / 1000) by (apply Z.div_pos; lia).
  lia.
Qed.

(** *** Random delays *)


(** *** Cleaning text *)







(** *** Trimming *)













End helper_facts.

(** ** Orchestrator: the store, completion and the queue *)

Section orchestrator_contracts.
Import Background.
Implicit Types (m : Manager) (env : Env) (jobs : list (Z * ScrapeJob)).

(** *** What the handlers do to the store *)

Lemma with_active_id m : with_active (activeScrapeJobs m) m = m.
Proof. by destruct m. Qed.

Lemma addToScrapingHistory_local job m :
  results (local (addToScrapingHistory job m)) = results (local m) /\
  scrapingIndex (local (addToScrapingHistory job m)) = scrapingIndex (local m) /\
  (length (scrapingHistory (local (addToScrapingHistory job m))) <= 50)%nat.
Proof.
  unfold addToScrapingHistory.
  cbn [local with_local set_scrapingHistory scrapingHistory results scrapingIndex].
  repeat split. case_bool_decide; [rewrite length_take|]; lia.
Qed.

Lemma updateScrapingHistory_local job m :
  results (local (updateScrapingHistory job m)) = results (local m) /\
  scrapingIndex (local (updateScrapingHistory job m)) = scrapingIndex (local m) /\
  length (scrapingHistory (local (updateScrapingHistory job m)))
    = length (scrapingHistory (local m)).
Proof.
  unfold updateScrapingHistory. repeat case_match; simpl; repeat split.
  by rewrite length_insert.
Qed.

Lemma startScrapeJob_local env tabId scrapingParams m :
  let m' := (startScrapeJob env tabId scrapingParams m).1 in
  savedNothing m m' /\
  (withinStoreCaps (local m) -> withinStoreCaps (local m')).
Proof.
  unfold startScrapeJob, savedNothing, withinStoreCaps.
  destruct (sendMessage env tabId "START_SCRAPING"); cbn [fst]; [done|].
  match goal with
  | |- context [addToScrapingHistory ?j ?x] =>
      destruct (addToScrapingHistory_local j x) as (Hres & Hix & Hlen)
  end.
  cbn [local emit with_active] in *. rewrite Hres, Hix. repeat split; [done|tauto].
Qed.

Lemma processScrapingQueue_local env m :
  savedNothing m (processScrapingQueue env m) /\
  (withinStoreCaps (local m) -> withinStoreCaps (local (processScrapingQueue env m))).
Proof.
  unfold processScrapingQueue. destruct (scrapingQueue m) as [|q rest]; [done|].
  case_match; [|done].
  apply (startScrapeJob_local env (q_tabId q) (q_scrapingParams q) (with_queue rest m)).
Qed.

Lemma cancelScrapeJob_local env tabId m :
  savedNothing m (cancelScrapeJob env tabId m) /\
  (withinStoreCaps (local m) -> withinStoreCaps (local (cancelScrapeJob env tabId m))).
Proof.
  unfold cancelScrapeJob. destruct (map_get tabId (activeScrapeJobs m)) as [job|]; [|done].
  match goal with
  | |- context [processScrapingQueue env ?x] =>
      destruct (processScrapingQueue_local env x) as [[Hres Hix] Hcap]
  end.
  match type of Hres with
  | context [updateScrapingHistory ?j ?x] =>
      destruct (updateScrapingHistory_local j x) as (Hres' & Hix' & Hlen')
  end.
  simpl in *.
  assert (forall x, local (match sendMessage env tabId "STOP_SCRAPING" with
                           | Some _ => x
                           | None => emit (TabMessage tabId "STOP_SCRAPING") x
                           end) = local x) as Hsend
    by (intros x; by destruct (sendMessage env tabId "STOP_SCRAPING")).
  rewrite Hsend in Hres', Hix', Hlen'. simpl in *.
  split; [split; congruence|].
  intros [Hh Hi]. apply Hcap. unfold withinStoreCaps. simpl. split; [lia | congruence].
Qed.

Lemma foldl_remove_results_frame (removed : list IndexEntry) s :
  scrapingHistory (foldl (fun s entry => remove_results [ie_id entry] s) s removed)
    = scrapingHistory s.
Proof. revert s. induction removed as [|e removed IH]; intros s; [done|]. simpl. by rewrite IH. Qed.

Lemma index_updateScrapingIndex jobId resultData s :
  let s' := Background.updateScrapingIndex jobId resultData s in
  (length (scrapingIndex s') <= maxEntries)%nat /\
  scrapingHistory s' = scrapingHistory s /\
  exists entry, head (scrapingIndex s') = Some entry /\ ie_id entry = jobId /\
                ie_status entry = status resultData /\
                jobCount entry = sd_jobCount resultData /\
                timestamp entry = startTime resultData.
Proof.
  unfold Background.updateScrapingIndex. cbv zeta.
  case_bool_decide as Hlen; cbn [scrapingIndex set_scrapingIndex scrapingHistory].
  - split; [|split].
    + rewrite length_take. lia.
    + apply foldl_remove_results_frame.
    + eexists. split; [reflexivity|]. done.
  - split; [|split].
    + lia.
    + done.
    + eexists. split; [reflexivity|]. done.
Qed.

Lemma foldl_remove_results_lookup (removed : list IndexEntry) s i :
  i ∉ ie_id <$> removed ->
  results (foldl (fun s entry => remove_results [ie_id entry] s) s removed) !! i
  = results s !! i.
Proof.
  revert s. induction removed as [|e removed IH]; intros s Hrem; [done|].
  csimpl in Hrem. apply not_elem_of_cons in Hrem as [Hne Hrem].
  simpl. rewrite IH by done. simpl. by rewrite lookup_delete_ne.
Qed.

Lemma results_updateScrapingIndex jobId resultData s i :
  i ∉ ie_id <$> scrapingIndex s ->
  results (Background.updateScrapingIndex jobId resultData s) !! i = results s !! i.
Proof.
  intros Hi. unfold Background.updateScrapingIndex. cbv zeta.
  case_bool_decide as Hlen; [|done].
  cbn [results set_scrapingIndex].
  apply foldl_remove_results_lookup. intros Hin. apply Hi.
  apply list_elem_of_fmap_1 in Hin as (e & -> & Hin).
  apply list_elem_of_fmap_2.
  change (drop maxEntries (?x :: scrapingIndex s))
    with (drop (pred maxEntries) (scrapingIndex s)) in Hin.
  by apply (sublist_subseteq _ _ (sublist_drop _ _)) in Hin.
Qed.

Lemma sendToAPI_local job m : local (sendToAPI job m) = local m.
Proof. unfold sendToAPI. by case_match. Qed.

Lemma saveScrapingResults_caps job m :
  withinStoreCaps (local m) -> withinStoreCaps (local (saveScrapingResults job m)).
Proof.
  intros [Hh Hi]. unfold saveScrapingResults. cbv zeta. cbn [local with_local].
  match goal with
  | |- context [Background.updateScrapingIndex ?j ?r ?x] =>
      destruct (index_updateScrapingIndex j r x) as (Hlen & Hhist & _)
  end.
  split; [by rewrite Hhist | done].
Qed.

Lemma handleProgressUpdate_caps env progressData tabId m :
  withinStoreCaps (local m) ->
  withinStoreCaps (local (handleProgressUpdate env progressData tabId m)).
Proof.
  intros Hcaps. unfold handleProgressUpdate.
  destruct (map_get tabId (activeScrapeJobs m)) as [job|]; [|done].
  destruct (String.eqb (pd_type progressData) "complete").
  - cbv zeta. unfold broadcastProgress. cbn [local emit].
    apply processScrapingQueue_local. cbn [local with_active].
    rewrite sendToAPI_local. by apply saveScrapingResults_caps.
  - by destruct (String.eqb (pd_type progressData) "error").
Qed.

Lemma checkStaleJob_local currentTime m kv :
  savedNothing m (checkStaleJob currentTime m kv) /\
  length (scrapingHistory (local (checkStaleJob currentTime m kv)))
    = length (scrapingHistory (local m)).
Proof.
  destruct kv as [tabId job]. unfold checkStaleJob, savedNothing.
  destruct (isStale currentTime job); [|done]. cbn [local with_active].
  destruct (updateScrapingHistory_local (timeoutJob currentTime job) m) as (-> & -> & ->).
  done.
Qed.

Lemma checkStaleJobs_local env m :
  savedNothing m (checkStaleJobs env m) /\
  length (scrapingHistory (local (checkStaleJobs env m)))
    = length (scrapingHistory (local m)).
Proof.
  unfold checkStaleJobs. generalize (activeScrapeJobs m). intros l. revert m.
  induction l as [|kv l IH]; intros m; [done|]. cbn [foldl].
  destruct (IH (checkStaleJob (now env) m kv)) as [[Hres Hix] Hlen].
  destruct (checkStaleJob_local (now env) m kv) as [[Hres' Hix'] Hlen'].
  unfold savedNothing. rewrite Hres, Hix, Hlen. done.
Qed.

Lemma cleanupOldData_caps env m :
  withinStoreCaps (local m) -> withinStoreCaps (local (cleanupOldData env m)).
Proof.
  intros [Hh Hi]. unfold cleanupOldData. cbv zeta. case_bool_decide; [|done].
  cbn [local with_local]. split; [done|]. cbn [scrapingIndex set_scrapingIndex].
  etrans; [apply length_filter | done].
Qed.

Lemma foldl_remove_ids (ids : list string) s :
  let s' := foldl (fun s id => remove_results [id] s) s ids in
  scrapingIndex s' = scrapingIndex s /\ scrapingHistory s' = scrapingHistory s /\
  forall i, results s' !! i = if decide (i ∈ ids) then None else results s !! i.
Proof.
  revert s. induction ids as [|k ids IH]; intros s; [done|]. cbn [foldl].
  destruct (IH (remove_results [k] s)) as (Hix & Hh & Hres). cbv zeta.
  rewrite Hix, Hh. split; [done|]. split; [done|]. intros i. rewrite Hres. simpl.
  rewrite lookup_delete. repeat case_decide; try done; set_solver.
Qed.

Lemma deleteScrapedData_caps filters m :
  withinStoreCaps (local m) -> withinStoreCaps (local (deleteScrapedData filters m)).
Proof.
  intros [Hh Hi]. unfold deleteScrapedData. cbv zeta. case_match.
  - split; simpl; lia.
  - cbn [local with_local].
    destruct (foldl_remove_ids (ie_id <$> summary (getScrapedData filters m)) (local m))
      as (Hix & Hhist & _).
    split.
    + cbn [scrapingHistory set_scrapingIndex]. by rewrite Hhist.
    + cbn [scrapingIndex set_scrapingIndex]. rewrite Hix.
      etrans; [apply length_filter | done].
Qed.

Lemma step_caps m ev : withinStoreCaps (local m) -> withinStoreCaps (local (step m ev)).
Proof.
  intros Hcaps. destruct ev as [env []]; unfold step.
  - unfold handleStartScraping. case_match; [done|]. case_match; [done|].
    pose proof (proj2 (startScrapeJob_local env tabId scrapingParams m) Hcaps) as Hstart.
    by destruct (startScrapeJob env tabId scrapingParams m) as [m' []].
  - by apply cancelScrapeJob_local.
  - by apply handleProgressUpdate_caps.
  - unfold handleTabRemoved. case_match; [by apply cancelScrapeJob_local | done].
  - by apply deleteScrapedData_caps.
  - destruct (checkStaleJobs_local env m) as [[_ Hix] Hlen]. destruct Hcaps as [Hh Hi].
    split; [lia | by rewrite Hix].
  - by apply cleanupOldData_caps.
Qed.

(** X18.  In every state the service worker can reach, the stored history holds
    at most 50 entries and the stored index at most 100. *)
Theorem history_and_index_stay_capped C cfg trace :
  withinStoreCaps (local (run (initial C cfg) trace)).
Proof.
  unfold run.
  assert (withinStoreCaps (local (initial C cfg))) as Hinit.
  { split; simpl; unfold maxEntries; lia. }
  revert Hinit. generalize (initial C cfg). intros m. revert m.
  induction trace as [|ev trace IH]; intros m Hcaps; [done|].
  cbn [foldl]. by apply IH, step_caps.
Qed.

(** X19.  A job that is cancelled, whose tab is closed or that times out leaves
    no session record and no index entry: neither the stop path nor the
    watchdog writes the result store. *)
Theorem cancelled_and_stale_jobs_save_nothing env tabId m :
  savedNothing m (cancelScrapeJob env tabId m) /\
  savedNothing m (handleTabRemoved env tabId m) /\
  savedNothing m (checkStaleJobs env m).
Proof.
  split; [|split].
  - apply cancelScrapeJob_local.
  - unfold handleTabRemoved. case_match; [apply cancelScrapeJob_local | done].
  - apply checkStaleJobs_local.
Qed.

(** *** Completion *)

(** X20.  A completion report saves the job: the session record under its id has
    status [completed], the time of the report as end time and the reported
    records; its entry leads the index; and the popup is told.  The job id
    must not be in the index already. *)
Theorem completed_job_is_saved env progressData tabId m job :
  map_get tabId (activeScrapeJobs m) = Some job ->
  pd_type progressData = "complete" ->
  job_id job ∉ ie_id <$> scrapingIndex (local m) ->
  let m' := handleProgressUpdate env progressData tabId m in
  let reported := default [] (pd_data progressData) in
  (exists record,
     results (local m') !! job_id job = Some record /\
     id record = job_id job /\ status record = "completed" /\
     startTime record = job_startTime job /\ endTime record = Some (now env) /\
     jobs record = Some reported /\ errors record = job_errors job) /\
  (exists entry,
     head (scrapingIndex (local m')) = Some entry /\ ie_id entry = job_id job /\
     ie_status entry = "completed" /\ timestamp entry = job_startTime job /\
     jobCount entry = Some (Z.of_nat (length reported))) /\
  last (emitted m') =
    Some (ProgressBroadcast (job_id job) (job_tabId job)
            (or_default (pd_progress progressData) 0) "completed" (length reported)).
Proof.
  intros Hget Htype Hfresh m' reported. subst m'. unfold handleProgressUpdate.
  rewrite Hget, Htype. cbn [String.eqb Ascii.eqb Bool.eqb]. cbv zeta.
  set (done_job := update_job "completed" _ _ _ _ _ _).
  unfold broadcastProgress. cbn [local emit emitted].
  match goal with
  | |- context [processScrapingQueue env ?x] =>
      destruct (processScrapingQueue_local env x) as [[Hres Hix] _]
  end.
  rewrite Hres, Hix. cbn [local with_active]. rewrite sendToAPI_local.
  unfold saveScrapingResults. cbv zeta. cbn [local with_local].
  split; [|split].
  - exists (resultDataOf done_job).
    rewrite results_updateScrapingIndex by done. cbn [results set_results].
    split; [apply lookup_insert_eq | done].
  - match goal with
    | |- context [Background.updateScrapingIndex ?j ?r ?x] =>
        destruct (index_updateScrapingIndex j r x) as (_ & _ & entry & Hhead & Hrest)
    end.
    exists entry. split; [exact Hhead|]. destruct Hrest as (? & ? & ? & ?). done.
  - by rewrite last_snoc.
Qed.

(** X21.  After a completion report from a tab that has no request waiting, a
    further report from that tab, whatever it says, changes nothing. *)
Theorem report_after_completion_is_ignored env env' progressData afterwards tabId m :
  pd_type progressData = "complete" ->
  tabId ∉ q_tabId <$> scrapingQueue m ->
  let m' := handleProgressUpdate env progressData tabId m in
  handleProgressUpdate env' afterwards tabId m' = m'.
Proof.
  intros Htype Hq m'.
  assert (map_get tabId (activeScrapeJobs m') = None) as Hgone.
  { subst m'. unfold handleProgressUpdate.
    destruct (map_get tabId (activeScrapeJobs m)) as [job|] eqn:Hget; [|done].
    rewrite Htype. cbn [String.eqb Ascii.eqb Bool.eqb]. cbv zeta.
    unfold broadcastProgress. cbn [activeScrapeJobs emit].
    match goal with
    | |- context [processScrapingQueue env ?x] =>
        destruct (processScrapingQueue_other env tabId x) as [-> _]
    end.
    - cbn [scrapingQueue with_active].
      by rewrite (proj2 (sendToAPI_frame _ _)).
    - cbn [activeScrapeJobs with_active]. apply map_get_delete_eq. }
  unfold handleProgressUpdate at 1. by rewrite Hgone.
Qed.

(** X22.  A completion report does not touch the history: with no request
    waiting the history is as it was, so the entry of the job that has
    completed still has the status and the absent end time it was given
    when the job started. *)
Theorem completion_leaves_history_as_it_was env progressData tabId m :
  pd_type progressData = "complete" ->
  scrapingQueue m = [] ->
  scrapingHistory (local (handleProgressUpdate env progressData tabId m))
  = scrapingHistory (local m).
Proof.
  intros Htype Hq. unfold handleProgressUpdate.
  destruct (map_get tabId (activeScrapeJobs m)) as [job|]; [|done].
  rewrite Htype. cbn [String.eqb Ascii.eqb Bool.eqb]. cbv zeta.
  unfold broadcastProgress. cbn [local emit].
  unfold processScrapingQueue. cbn [scrapingQueue with_active].
  rewrite (proj2 (sendToAPI_frame _ _)). cbn [scrapingQueue saveScrapingResults with_local].
  rewrite Hq. cbn [local with_active]. rewrite sendToAPI_local.
  unfold saveScrapingResults. cbv zeta. cbn [local with_local].
  match goal with
  | |- context [Background.updateScrapingIndex ?j ?r ?x] =>
      destruct (index_updateScrapingIndex j r x) as (_ & -> & _)
  end.
  done.
Qed.

(** *** Draining the queue, again *)

(** X23.  When the request that is drained belongs to a tab whose job is running
    already (the tab was queued while it waited), the new job takes the
    place of the running one in the registry: no slot is used, and the
    running job gets no end: the store changes only by the history entry
    of the new job. *)
Theorem drained_request_replaces_running_job env m q rest running :
  scrapingQueue m = q :: rest ->
  map_get (q_tabId q) (activeScrapeJobs m) = Some running ->
  map_size (activeScrapeJobs m) < maxConcurrentScrapes m ->
  sendMessage env (q_tabId q) "START_SCRAPING" = None ->
  let m' := processScrapingQueue env m in
  let started := newJob (now env) (q_tabId q) (q_scrapingParams q) in
  map_get (q_tabId q) (activeScrapeJobs m') = Some started /\
  length (activeScrapeJobs m') = length (activeScrapeJobs m) /\
  scrapingQueue m' = rest /\
  local m' = local (addToScrapingHistory started m).
Proof.
  intros Hq Hrun Hfree Hsend m' started. subst m'.
  unfold processScrapingQueue. rewrite Hq.
  apply Z.ltb_lt in Hfree. rewrite Hfree. unfold startScrapeJob. rewrite Hsend.
  cbn [fst]. unfold addToScrapingHistory. cbn. split; [|split; [|done]].
  - apply map_get_set_eq.
  - rewrite map_set_length.
    replace (map_has (q_tabId q) (activeScrapeJobs m)) with true; [done|].
    symmetry. apply map_has_get. by rewrite Hrun.
Qed.

(** X24.  A waiting request whose start signal cannot be delivered is dropped:
    it leaves the queue, nothing is registered, recorded or sent, and the
    next waiting request is not tried, so the slot stays free. *)
Theorem undeliverable_request_is_dropped env m q rest error :
  scrapingQueue m = q :: rest ->
  map_has (q_tabId q) (activeScrapeJobs m) = false ->
  map_size (activeScrapeJobs m) < maxConcurrentScrapes m ->
  sendMessage env (q_tabId q) "START_SCRAPING" = Some error ->
  processScrapingQueue env m = with_queue rest m.
Proof.
  intros Hq Hfresh Hfree Hsend. unfold processScrapingQueue. rewrite Hq.
  apply Z.ltb_lt in Hfree. rewrite Hfree. unfold startScrapeJob. rewrite Hsend.
  cbn [fst activeScrapeJobs with_active with_queue].
  rewrite map_delete_set_fresh by done. by destruct m.
Qed.

(** X25.  A submission whose start signal cannot be delivered leaves the manager
    exactly as it was, and the caller gets the error. *)
Theorem failed_start_leaves_no_trace env scrapingParams tabId m error :
  map_has tabId (activeScrapeJobs m) = false ->
  map_size (activeScrapeJobs m) < maxConcurrentScrapes m ->
  sendMessage env tabId "START_SCRAPING" = Some error ->
  handleStartScraping env scrapingParams tabId m = (m, Thrown error).
Proof.
  intros Hfresh Hfree Hsend. unfold handleStartScraping. rewrite Hfresh.
  apply Z.leb_gt in Hfree. rewrite Hfree. unfold startScrapeJob. rewrite Hsend.
  cbn [activeScrapeJobs with_active].
  rewrite map_delete_set_fresh by done. by destruct m.
Qed.

(** *** Deleting data *)




End orchestrator_contracts.

(** ** The further properties on concrete inputs *)

Section further_runs.
Import Background.

Lemma delete_multiple_is_repeated_delete_witness :
  Storage.deleteMultipleSessions 0 ["a"; "b"] (storeOf eightSessions) =
  Storage.deleteScrapingSession 0 "b"
    (Storage.deleteScrapingSession 0 "a" (storeOf eightSessions)).
Proof. apply (delete_multiple_is_repeated_delete 0 ["a"; "b"]). discriminate. Defined.

Lemma quota_cleanup_spares_a_small_index_witness :
  let s := storeOf [sessionAt "a" 10; sessionAt "b" 20; sessionAt "c" 30] in
  Storage.usageHigh (fun _ => 99) 100 s = true /\
  Storage.checkStorageQuota (fun _ => 99) 100 0 s = s.
Proof.
  intros s. split; [reflexivity|].
  apply (quota_cleanup_spares_a_small_index (fun _ => 99) 100 0 s). simpl. lia.
Defined.

Lemma stored_description_is_not_restored_witness :
  1024 < Z.of_nat (String.length longDescription) /\
  Storage.decompressJob (Storage.compressJob (fun t => t) (fun t => t) describedJob)
  = <["jobDescription" := JStr longDescription]> describedJob.
Proof.
  split; [reflexivity|].
  pose proof (stored_description_is_not_restored (fun t => t) (fun t => t)
                describedJob eq_refl) as H.
  vm_compute in H. vm_compute. exact H.
Defined.

Lemma saved_session_reads_back_witness :
  let save := Storage.saveScrapingSession (fun _ => None) (fun t => t) (fun t => t)
                (fun _ => 0) (fun _ => 85) 100 in
  Storage.getScrapingSession "i" (save 0 (sessionAt "i" 90) (storeOf eightSessions)).1
  = Some (sessionAt "i" 90).
Proof.
  intros save.
  refine (proj1 (saved_session_reads_back (fun _ => None) (fun t => t) (fun t => t)
                   (fun _ => 0) (fun _ => 85) 100 0 (sessionAt "i" 90)
                   (storeOf eightSessions) _)).
  simpl. unfold Storage.maxIndexEntries. lia.
Defined.

Lemma index_counts_records_before_dedup_witness :
  let records := [posting "1" "u"; posting "1" "u"; posting "2" "v"] in
  let saved :=
    (Storage.saveScrapingSession (fun _ => None) (fun t => t) (fun t => t)
       (fun _ => 0) (fun _ => 0) 100 0 (sessionWith "i" 90 records) emptyStore).1 in
  exists entry stored kept,
    entry ∈ scrapingIndex saved /\ ie_id entry = "i" /\
    jobCount entry = Some 3 /\
    results saved !! "i" = Some stored /\ jobs stored = Some kept /\
    (length kept <= 3)%nat /\
    (length kept = 3%nat <->
     NoDup (Storage.jobKey <$>
              (Storage.cleanJobData (fun _ => None) (fun t => t) <$> records))).
Proof.
  intros records saved.
  refine (index_counts_records_before_dedup (fun _ => None) (fun t => t) (fun t => t)
            (fun _ => 0) (fun _ => 0) 100 0 (sessionWith "i" 90 records) emptyStore
            records _ _).
  - simpl. lia.
  - reflexivity.
Defined.

Lemma csv_text_determines_the_table_witness :
  let a : list Job := [ {[ "jobId" := JNum 7; "applicants" := JNum 0 ]} ] in
  let b : list Job := [ {[ "jobId" := JStr "7" ]} ] in
  csvTable a = csvTable b.
Proof.
  intros a b. apply (csv_text_determines_the_table a b). vm_compute. reflexivity.
Defined.

Lemma escapeCSV_is_injective_on_strings_witness :
  let text : string := "Engineer, senior" in
  Helpers.escapeCSV (JStr text) = Helpers.escapeCSV (JStr text) /\ text = text.
Proof.
  intros text. split; [reflexivity|].
  apply (escapeCSV_is_injective_on_strings text text). reflexivity.
Defined.

Lemma duration_is_rounded_down_witness :
  Helpers.calculateDuration 1000 126500 = "2m 5s".
Proof.
  pose proof (duration_is_rounded_down 1000 126500 ltac:(lia)) as [H _].
  vm_compute in H. vm_compute. exact H.
Defined.


Lemma saving_again_changes_nothing_witness :
  let save := Storage.saveScrapingSession (fun _ => None) (fun t => t) (fun t => t)
                (fun _ => 0) (fun _ => 10) 100 in
  let saved := (save 0 (sessionAt "i" 90) (storeOf eightSessions)).1 in
  let again := (save 7 (sessionAt "i" 90) saved).1 in
  scrapingIndex again = scrapingIndex saved /\ results again = results saved.
Proof.
  intros save saved again.
  refine (saving_again_changes_nothing (fun _ => None) (fun t => t) (fun t => t)
            (fun _ => 0) (fun _ => 10) 100 0 7 (sessionAt "i" 90)
            (storeOf eightSessions) _ _).
  - simpl. unfold Storage.maxIndexEntries. lia.
  - reflexivity.
Defined.


Lemma completed_job_is_saved_witness :
  let report := completeWith [posting "1" "u"; posting "2" "v"] in
  let m' := handleProgressUpdate (quietEnv 5000) report 1 oneRunning in
  (exists record,
     results (local m') !! "job_0_1" = Some record /\
     id record = "job_0_1" /\ status record = "completed" /\
     startTime record = 0 /\ endTime record = Some 5000 /\
     jobs record = Some [posting "1" "u"; posting "2" "v"] /\ errors record = []) /\
  (exists entry,
     head (scrapingIndex (local m')) = Some entry /\ ie_id entry = "job_0_1" /\
     ie_status entry = "completed" /\ timestamp entry = 0 /\
     jobCount entry = Some 2) /\
  last (emitted m') = Some (ProgressBroadcast "job_0_1" 1 100 "completed" 2).
Proof.
  intros report m'.
  refine (completed_job_is_saved (quietEnv 5000) report 1 oneRunning
            (newJob 0 1 someParams) _ _ _).
  - reflexivity.
  - reflexivity.
  - by_evaluation.
Defined.

Lemma report_after_completion_is_ignored_witness :
  let m' := handleProgressUpdate (quietEnv 5000) completeUpdate 1 oneRunning in
  handleProgressUpdate (quietEnv 6000) (infoUpdate 50) 1 m' = m'.
Proof.
  intros m'.
  refine (report_after_completion_is_ignored (quietEnv 5000) (quietEnv 6000)
            completeUpdate (infoUpdate 50) 1 oneRunning _ _).
  - reflexivity.
  - by_evaluation.
Defined.

Lemma completion_leaves_history_as_it_was_witness :
  let m' := handleProgressUpdate (quietEnv 5000) completeUpdate 1 oneRunning in
  (fun entry => (he_id entry, he_status entry, he_endTime entry))
    <$> scrapingHistory (local m') = [("job_0_1", "running", None)].
Proof.
  intros m'. subst m'.
  rewrite (completion_leaves_history_as_it_was (quietEnv 5000) completeUpdate 1 oneRunning
             eq_refl eq_refl).
  reflexivity.
Defined.
Lemma drained_request_replaces_running_job_witness :
  let reached := run (initial 2 noSettings) contextThreeQueuedTwice in
  let m := slotFreed 2 reached in
  let second := {| q_tabId := 3; q_scrapingParams := someParams; q_timestamp := 3 |} in
  let m' := processScrapingQueue (quietEnv 9) m in
  map_get 3 (activeScrapeJobs reached) = Some (newJob 4 3 someParams) /\
  scrapingQueue reached = [second] /\
  map_get 3 (activeScrapeJobs m') = Some (newJob 9 3 someParams) /\
  length (activeScrapeJobs m') = length (activeScrapeJobs m) /\
  scrapingQueue m' = [] /\
  local m' = local (addToScrapingHistory (newJob 9 3 someParams) m).
Proof.
  intros reached m second m'. split; [reflexivity|]. split; [reflexivity|].
  refine (drained_request_replaces_running_job (quietEnv 9) m second []
            (newJob 4 3 someParams) _ _ _ _).
  - reflexivity.
  - reflexivity.
  - reflexivity.
  - reflexivity.
Defined.

(** The same on the events: when job 2 completes, the second request of
    context 3 is drained; the job of context 3 that was running is in the
    registry no more, it has no session record, and its history entry says
    [running] for ever. *)
Example context_queued_twice_loses_its_running_job :
  let reached := run (initial 2 noSettings) contextThreeQueuedTwice in
  let m' := step reached (quietEnv 9, Progress 2 completeUpdate) in
  (activeScrapeJobs m') = [(3, newJob 9 3 someParams)] /\
  results (local m') !! "job_4_3" = None /\
  (fun entry => (he_id entry, he_status entry)) <$> scrapingHistory (local m')
    = [("job_9_3", "running"); ("job_4_3", "running");
       ("job_1_2", "running"); ("job_0_1", "running")].
Proof. vm_compute. repeat split. Qed.

Lemma undeliverable_request_is_dropped_witness :
  let reached := run (initial 2 noSettings) twoRunningOneQueued in
  let m := slotFreed 1 reached in
  (q_tabId <$> scrapingQueue m) = [3] /\
  processScrapingQueue (deafEnv 9) m = with_queue [] m.
Proof.
  intros reached m. split; [reflexivity|].
  refine (undeliverable_request_is_dropped (deafEnv 9) m
            {| q_tabId := 3; q_scrapingParams := someParams; q_timestamp := 2 |} []
            "Could not establish connection" _ _ _ _); reflexivity.
Defined.

(** The same on the events: context 1 is stopped while context 3 cannot be
    reached.  Its request is gone from the queue and one slot is free. *)
Example stop_drops_an_unreachable_request :
  let m' := step (run (initial 2 noSettings) twoRunningOneQueued) (deafEnv 9, Stop 1) in
  (activeScrapeJobs m').*1 = [2] /\ scrapingQueue m' = [].
Proof. vm_compute. split; reflexivity. Qed.

Lemma failed_start_leaves_no_trace_witness :
  handleStartScraping (deafEnv 0) someParams 1 (initial 2 noSettings)
  = (initial 2 noSettings, Thrown "Could not establish connection").
Proof.
  refine (failed_start_leaves_no_trace (deafEnv 0) someParams 1 (initial 2 noSettings)
            "Could not establish connection" _ _ _); reflexivity.
Defined.

End further_runs.
